(** * Storefront client: image-reference normalizers and the admin session

    A shallow embedding of the two pieces of logic of the storefront client
    that carry behaviour of their own:

    - [src/lib/utils.ts] ([getEmbeddableImageUrl]) and the admin product
      editor ([extractDriveUrl]), which rewrite Google Drive links;
    - [src/lib/api.ts], the authentication service and the auth store, which
      exchange and keep the bearer token.

    JavaScript strings are modelled as [string], read as the UTF-8 bytes of
    the text.  Every pattern and every literal the code compares against is
    pure ASCII, and no byte of a multi-byte UTF-8 sequence is an ASCII byte,
    so prefix tests, substring tests and the regular expressions below give
    the same answers on bytes as they do on UTF-16 code units.  A lone
    surrogate, which a JavaScript string may hold and UTF-8 cannot, is read
    as the three bytes of its generalized encoding (see
    [JsString.well_formed]). *)

From Stdlib Require Import Ascii String NArith Bool List Lia DecimalString.
From stdpp Require Import gmap strings.

Local Open Scope char_scope.
Local Set Warnings "-register-all".
Local Arguments String.append !_ _ /.

(** ** String primitives of the JavaScript runtime *)

Module JsString.

(** [s.startsWith(p)] *)
Fixpoint startsWith (s p : string) {struct p} : bool :=
  match p with
  | EmptyString => true
  | String c p' =>
      match s with
      | EmptyString => false
      | String d s' => Ascii.eqb d c && startsWith s' p'
      end
  end.

(** [s.includes(p)] *)
Fixpoint includes (s p : string) : bool :=
  startsWith s p ||
  match s with
  | EmptyString => false
  | String _ s' => includes s' p
  end.

(** A string is falsy exactly when it is empty. *)
Definition truthy (s : string) : bool :=
  match s with
  | EmptyString => false
  | String _ _ => true
  end.

(** [s.slice(n)] for [0 <= n]. *)
Fixpoint drop (n : nat) (s : string) : string :=
  match n, s with
  | O, _ => s
  | S _, EmptyString => EmptyString
  | S n', String _ s' => drop n' s'
  end.

Definition in_range (lo hi c : ascii) : bool :=
  (N_of_ascii lo <=? N_of_ascii c)%N && (N_of_ascii c <=? N_of_ascii hi)%N.

Definition hex_digit (n : N) : ascii :=
  if (n <? 10)%N then ascii_of_N (48 + n) else ascii_of_N (55 + n).

(** The characters [encodeURIComponent] leaves alone:
    [A-Z a-z 0-9 - _ . ! ~ * ' ( )]. *)
Definition uri_unreserved (c : ascii) : bool :=
  in_range "a" "z" c || in_range "A" "Z" c || in_range "0" "9" c ||
  existsb (Ascii.eqb c) ["-"; "_"; "."; "!"; "~"; "*"; "'"; "("; ")"].

(** [encodeURIComponent(s)], when it returns: every other byte of the UTF-8
    text becomes [%XX] in upper-case hexadecimal.  On a string that holds a
    lone surrogate the built-in throws [URIError] instead; [well_formed]
    below says which strings those are, and [Throwing] runs the callers
    with that exception. *)
Fixpoint encodeURIComponent (s : string) : string :=
  match s with
  | EmptyString => EmptyString
  | String c s' =>
      if uri_unreserved c then String c (encodeURIComponent s')
      else
        let n := N_of_ascii c in
        String "%" (String (hex_digit (n / 16)) (String (hex_digit (n mod 16))
          (encodeURIComponent s')))
  end.

(** A lone surrogate (U+D800 to U+DFFF) has no UTF-8 form; its generalized
    encoding is the byte [ED], a byte from [A0] to [BF], and one more.  In
    UTF-8 text [ED] only ever leads a three-byte sequence and is followed
    there by a byte from [80] to [9F], and a surrogate pair is one four-byte
    sequence.  So a string holds a lone surrogate exactly when it has [ED]
    followed by a byte from [A0] to [BF]. *)
Fixpoint well_formed (s : string) : bool :=
  match s with
  | EmptyString => true
  | String c s' =>
      negb (Ascii.eqb c (ascii_of_N 237) &&
            match s' with
            | String d _ => in_range (ascii_of_N 160) (ascii_of_N 191) d
            | EmptyString => false
            end) &&
      well_formed s'
  end.

(** The decimal rendering of a non-negative integer, as a template literal
    prints it. *)
Definition decimal (n : N) : string := NilEmpty.string_of_uint (N.to_uint n).

End JsString.

(** ** The regular expressions of the two normalizers

    Every pattern in the source has the same shape: a fixed run of
    single-character matchers (literal characters, or the class [[?&]])
    followed by the capturing group [([a-zA-Z0-9_-]+)], with no flags.
    [String.prototype.match] on such a pattern returns the leftmost match, and
    the greedy group takes the longest run of identifier characters that
    follows the prefix; nothing comes after the group, so there is no
    backtracking. *)

Module Regex.
Import JsString.

Inductive atom : Type :=
| Lit (c : ascii)
| OneOf (cs : list ascii).

Definition pattern := list atom.

Fixpoint lit (s : string) : pattern :=
  match s with
  | EmptyString => []
  | String c s' => Lit c :: lit s'
  end.

Definition atom_accepts (a : atom) (c : ascii) : bool :=
  match a with
  | Lit d => Ascii.eqb c d
  | OneOf cs => existsb (Ascii.eqb c) cs
  end.

(** The class [[a-zA-Z0-9_-]]. *)
Definition is_id_char (c : ascii) : bool :=
  in_range "a" "z" c || in_range "A" "Z" c || in_range "0" "9" c ||
  Ascii.eqb c "_" || Ascii.eqb c "-".

(** Consume the fixed prefix of a pattern; the remainder of the subject. *)
Fixpoint match_atoms (p : pattern) (s : string) : option string :=
  match p with
  | [] => Some s
  | a :: p' =>
      match s with
      | EmptyString => None
      | String c s' => if atom_accepts a c then match_atoms p' s' else None
      end
  end.

(** The greedy run [[a-zA-Z0-9_-]*] at the head of the subject. *)
Fixpoint id_run (s : string) : string :=
  match s with
  | EmptyString => EmptyString
  | String c s' => if is_id_char c then String c (id_run s') else EmptyString
  end.

(** A match anchored at the head: the prefix, then a non-empty group. *)
Definition match_here (p : pattern) (s : string) : option string :=
  match match_atoms p s with
  | Some rest =>
      match id_run rest with
      | EmptyString => None
      | String c g => Some (String c g)
      end
  | None => None
  end.

(** [s.match(/p([a-zA-Z0-9_-]+)/)]: group 1 of the leftmost match, or
    [None] when the result is [null]. *)
Fixpoint exec (p : pattern) (s : string) : option string :=
  match match_here p s with
  | Some g => Some g
  | None =>
      match s with
      | EmptyString => None
      | String _ s' => exec p s'
      end
  end.

(** [/^[a-zA-Z0-9_-]{n,}$/.test(s)] *)
Fixpoint all_id (s : string) : bool :=
  match s with
  | EmptyString => true
  | String c s' => is_id_char c && all_id s'
  end.

Definition test_bare_id (n : nat) (s : string) : bool :=
  all_id s && (n <=? String.length s)%nat.

(** The subject stops the greedy group: it is empty or begins with a
    character outside the class. *)
Definition id_stops (rest : string) : bool :=
  match rest with
  | EmptyString => true
  | String c _ => negb (is_id_char c)
  end.

(** "[url] contains the segment [w<id>], and it is the first one": [url]
    splits as [pre], the literal [w], the identifier and a remainder the
    identifier does not run into, and [w] followed by an identifier
    character occurs nowhere further left. *)
Definition first_segment (w url pre id rest : string) : Prop :=
  url = (pre +:+ w +:+ id +:+ rest)%string /\
  truthy id = true /\ all_id id = true /\ id_stops rest = true /\
  forall pre' c rest',
    url = (pre' +:+ w +:+ String c rest')%string -> is_id_char c = true ->
    String.length pre <= String.length pre'.

(** The same, as a test that can be run. *)
Definition first_segment_b (w url pre id rest : string) : bool :=
  String.eqb url (pre +:+ w +:+ id +:+ rest) &&
  truthy id && all_id id && id_stops rest &&
  forallb (fun n => negb (bool_decide (is_Some (match_here (lit w) (drop n url)))))
          (seq 0 (String.length pre)).

(** The guarded assignment both normalizers repeat:
    [if (!fileId && m) fileId = m[1];] *)
Definition assign_if_unset (fileId : string) (m : option string) : string :=
  match m with
  | Some g => if negb (truthy fileId) then g else fileId
  | None => fileId
  end.

End Regex.

(** ** [src/lib/utils.ts]: the display-time normalizer *)

Module Utils.
Import JsString Regex.

(** [import.meta.env]: the only variable read is [VITE_API_URL], which is
    [undefined] ([None]) when the deployment does not set it. *)
Record ImportMetaEnv : Type := { VITE_API_URL : option string }.

(** [import.meta.env.VITE_API_URL || 'http://localhost:8000'] *)
Definition apiUrl (env : ImportMetaEnv) : string :=
  match VITE_API_URL env with
  | Some s => if truthy s then s else "http://localhost:8000"%string
  | None => "http://localhost:8000"%string
  end.

(** The argument type [string | undefined | null]. *)
Inductive url_arg : Type :=
| Undefined
| Null
| Str (s : string).

(** [/googleusercontent\.com\/d\/([a-zA-Z0-9_-]+)/] *)
Definition lh3_re : pattern := lit "googleusercontent.com/d/".
(** [/\/file\/d\/([a-zA-Z0-9_-]+)/] *)
Definition file_re : pattern := lit "/file/d/".
(** [/open\?id=([a-zA-Z0-9_-]+)/] *)
Definition open_re : pattern := lit "open?id=".
(** [/[?&]id=([a-zA-Z0-9_-]+)/] *)
Definition id_re : pattern := OneOf ["?"; "&"] :: lit "id=".
(** [/\/d\/([a-zA-Z0-9_-]+)/] *)
Definition d_re : pattern := lit "/d/".

(** Lines 96-116: the value of [fileId] once the five patterns have been
    tried.  The first assignment is unguarded in the source ([if (lh3Match)
    fileId = lh3Match[1]]); [fileId] is [''] at that point. *)
Definition fileId_of (url : string) : string :=
  let fileId := EmptyString in
  let lh3Match := exec lh3_re url in
  let fileId := match lh3Match with Some g => g | None => fileId end in
  let fileMatch := exec file_re url in
  let fileId := assign_if_unset fileId fileMatch in
  let openMatch := exec open_re url in
  let fileId := assign_if_unset fileId openMatch in
  let idMatch := exec id_re url in
  let fileId := assign_if_unset fileId idMatch in
  let dMatch := exec d_re url in
  let fileId := assign_if_unset fileId dMatch in
  fileId.

(** The part of [getEmbeddableImageUrl] that runs on a non-empty string. *)
Definition embeddable_of_string (env : ImportMetaEnv) (url : string) : string :=
  if startsWith url "data:" then url
  else if startsWith url "/" then url
  else if startsWith url "http://localhost" then url
  else if negb (includes url "google.com") &&
          negb (includes url "googleusercontent.com") then url
  else
    let fileId := fileId_of url in
    if truthy fileId then
      (apiUrl env +:+ "/api/images/drive/" +:+ fileId)%string
    else
      (apiUrl env +:+ "/api/images/proxy?url=" +:+ encodeURIComponent url)%string.

Definition getEmbeddableImageUrl (env : ImportMetaEnv) (url : url_arg) : string :=
  match url with
  | Undefined | Null => "/placeholder.jpg"%string
  | Str s =>
      if negb (truthy s) then "/placeholder.jpg"%string
      else embeddable_of_string env s
  end.

(** The order of the attempts as the specification words it: an ordered
    list of patterns, tried in sequence, the first match winning.  The
    source has no such table; [fileId_of] above is compared with it. *)
Definition priority : list pattern := [lh3_re; file_re; open_re; id_re; d_re].

Fixpoint first_match (ps : list pattern) (url : string) : option string :=
  match ps with
  | [] => None
  | p :: ps' =>
      match exec p url with
      | Some g => Some g
      | None => first_match ps' url
      end
  end.

(** Lines 96-116 once more, as a function of the five match results alone:
    each result in turn is assigned when [fileId] is still empty. *)
Definition fileId_from (matches : list (option string)) : string :=
  fold_left assign_if_unset matches EmptyString.

(** The checks that precede the extraction all fail: the input is a
    non-empty string with none of the pass-through prefixes, and it names
    one of the two Google hosts. *)
Definition reaches_extraction (url : string) : bool :=
  truthy url &&
  negb (startsWith url "data:") && negb (startsWith url "/") &&
  negb (startsWith url "http://localhost") &&
  (includes url "google.com" || includes url "googleusercontent.com").

(** The identifier [getEmbeddableImageUrl] extracts, when it extracts one:
    the inputs on which it reaches [if (fileId)] with a non-empty [fileId]. *)
Definition extracted_id (url : string) : option string :=
  if reaches_extraction url then
    let fileId := fileId_of url in
    if truthy fileId then Some fileId else None
  else None.

End Utils.

(** ** [src/pages/admin/AdminProducts.tsx]: the store-time normalizer *)

Module AdminProducts.
Import JsString Regex.

(** [/\/file\/d\/([a-zA-Z0-9_-]+)/] *)
Definition file_re : pattern := lit "/file/d/".
(** [/[?&]id=([a-zA-Z0-9_-]+)/], bound to [openMatch] in the source. *)
Definition open_re : pattern := OneOf ["?"; "&"] :: lit "id=".
(** [/uc\?export=view&id=([a-zA-Z0-9_-]+)/] *)
Definition uc_re : pattern := lit "uc?export=view&id=".

(** The value of [fileId] after the four attempts of [extractDriveUrl]. *)
Definition fileId_of (input : string) : string :=
  let fileId := EmptyString in
  let fileMatch := exec file_re input in
  let fileId := match fileMatch with Some g => g | None => fileId end in
  let openMatch := exec open_re input in
  let fileId := assign_if_unset fileId openMatch in
  let ucMatch := exec uc_re input in
  let fileId := assign_if_unset fileId ucMatch in
  let fileId :=
    if negb (truthy fileId) && test_bare_id 20 input then input else fileId in
  fileId.

Definition extractDriveUrl (input : string) : string :=
  if negb (truthy input) then EmptyString
  else if includes input "lh3.googleusercontent.com" then input
  else
    let fileId := fileId_of input in
    if truthy fileId then ("https://lh3.googleusercontent.com/d/" +:+ fileId)%string
    else input.

(** The identifier [extractDriveUrl] derives, when it derives one: the
    inputs on which it reaches [if (fileId)] with a non-empty [fileId]. *)
Definition derived_id (input : string) : option string :=
  if negb (truthy input) then None
  else if includes input "lh3.googleusercontent.com" then None
  else
    let fileId := fileId_of input in
    if truthy fileId then Some fileId else None.

(** The display normalizer's ['open?id='] attempt and its ['?id='/'&id=']
    attempt do not pull apart: when no ['/file/d/'] form is present and
    ['open?id='] matches, the query pattern captures the same text. *)
Definition query_forms_agree (input : string) : bool :=
  match exec Utils.file_re input, exec Utils.open_re input with
  | None, Some g => bool_decide (exec Utils.id_re input = Some g)
  | _, _ => true
  end.

End AdminProducts.

(** ** JavaScript values, as far as the authentication code inspects them *)

Module Js.

(** What [JSON.parse] can produce, plus [undefined].  A number is kept as
    the text [Number.prototype.toString] prints for it, which is all the
    code below ever asks of one: its truthiness (only [0], [-0] and [NaN]
    are falsy, and the first two print as [0]) and its string form.  An
    object is the list of its own properties, each name bound once. *)
Inductive value : Type :=
| VUndefined
| VNull
| VBool (b : bool)
| VNum (text : string)
| VStr (s : string)
| VArr (items : list value)
| VObj (props : list (string * value)).

Definition truthy (v : value) : bool :=
  match v with
  | VUndefined | VNull => false
  | VBool b => b
  | VNum t => negb (String.eqb t "0" || String.eqb t "NaN")
  | VStr s => JsString.truthy s
  | VArr _ | VObj _ => true
  end.

(** [a || b] *)
Definition or_else (a b : value) : value := if truthy a then a else b.

(** The text the abstract operation [ToString] yields, when it yields one:
    arrays join their items with commas, printing [null] and [undefined]
    items as nothing; a plain object prints as [[object Object]].
    [printable] below says when the operation completes. *)
Fixpoint to_string (v : value) : string :=
  match v with
  | VUndefined => "undefined"
  | VNull => "null"
  | VBool true => "true"
  | VBool false => "false"
  | VNum t => t
  | VStr s => s
  | VArr items =>
      let item (x : value) : string :=
        match x with
        | VUndefined | VNull => EmptyString
        | _ => to_string x
        end in
      (fix join (xs : list value) : string :=
         match xs with
         | [] => EmptyString
         | [x] => item x
         | x :: rest => item x +:+ "," +:+ join rest
         end) items
  | VObj _ => "[object Object]"
  end%string.

(** Whether [ToString] completes.  On an object it calls the object's
    [toString]; a parsed object that has a property of that name of its own
    has a value there, never a function, the inherited [valueOf] then returns
    the object itself, and the conversion throws a [TypeError].  An array
    converts each item that is neither [null] nor [undefined]. *)
Fixpoint printable (v : value) : bool :=
  match v with
  | VObj props => negb (existsb (fun kv => String.eqb (fst kv) "toString") props)
  | VArr items =>
      (fix all (xs : list value) : bool :=
         match xs with
         | [] => true
         | x :: rest => printable x && all rest
         end) items
  | _ => true
  end.

Fixpoint lookup_prop (k : string) (props : list (string * value)) : value :=
  match props with
  | [] => VUndefined
  | (k', v) :: rest => if String.eqb k k' then v else lookup_prop k rest
  end.

(** What is thrown.  [JsError name message] is an instance of [Error]
    ([Error], [TypeError], [SyntaxError], ...); [Thrown v] is any other
    thrown value. *)
Inductive exn : Type :=
| JsError (name message : string)
| Thrown (v : value).

Inductive outcome (A : Type) : Type :=
| Return (a : A)
| Throw (e : exn).
Arguments Return {A} a.
Arguments Throw {A} e.

(** The abstract operation [ToString]; the text of the [TypeError] is the
    engine's. *)
Definition ToString (convert_message : string) (v : value) : outcome string :=
  if printable v then Return (to_string v)
  else Throw (JsError "TypeError" convert_message).

(** [v.k] for a property name [k] that no primitive wrapper and no array
    defines ([detail], [access_token], [user], [isAdmin]).  Reading a
    property of [null] or [undefined] throws a [TypeError] whose text the
    engine chooses. *)
Definition read_prop (null_read_message : string -> string)
    (v : value) (k : string) : outcome value :=
  match v with
  | VUndefined | VNull => Throw (JsError "TypeError" (null_read_message k))
  | VObj props => Return (lookup_prop k props)
  | _ => Return VUndefined
  end.

(** [v?.k] *)
Definition read_prop_opt (v : value) (k : string) : value :=
  match v with
  | VObj props => lookup_prop k props
  | _ => VUndefined
  end.

End Js.

(** ** [src/lib/api.ts] *)

Module Api.
Import Js.

Record Request : Type := {
  req_url : string;
  req_method : option string;
  req_headers : gmap string string;
  req_body : option string
}.

(** [RequestInit], the [options] argument. *)
Record RequestInit : Type := {
  method : option string;
  headers : gmap string string;
  body : option string
}.

Definition no_options : RequestInit :=
  {| method := None; headers := ∅; body := None |}.

(** A [Response]: its status, and what [response.json()] settles to
    (a rejection, or the parsed body). *)
Record Response : Type := {
  status : N;
  json : exn + value
}.

(** [response.ok]: the status is in the range 200-299. *)
Definition ok (r : Response) : bool :=
  (200 <=? status r)%N && (status r <=? 299)%N.

(** Everything the page takes from its surroundings: the build-time
    environment, the network, and pieces of engine and browser behaviour:
    the serializer, the texts of the errors the engine raises, and whether
    [sessionStorage], holding the given entries, accepts a write of the
    given key and value (it throws [QuotaExceededError] when it does not). *)
Record Runtime : Type := {
  env : Utils.ImportMetaEnv;
  fetch : Request -> exn + Response;
  JSON_stringify : value -> string;
  null_read_message : string -> string;
  convert_message : string;
  storage_accepts : gmap string string -> string -> string -> bool;
  quota_message : string
}.

Definition API_BASE_URL (rt : Runtime) : string := Utils.apiUrl (env rt).

(** [sessionStorage], a string-to-string map. *)
Abbreviation Storage := (gmap string string).

Definition getAuthHeader (ss : Storage) : gmap string string :=
  match ss !! "auth_token"%string with
  | Some token =>
      if JsString.truthy token
      then {[ "Authorization"%string := ("Bearer " +:+ token)%string ]}
      else ∅
  | None => ∅
  end.

(** The request [apiRequest] hands to [fetch].  In the spread
    [{...defaultHeaders, ...options.headers}] the later entries win, which
    is the left-biased union with the arguments swapped. *)
Definition build_request (rt : Runtime) (ss : Storage)
    (endpoint : string) (options : RequestInit) : Request :=
  let url := (API_BASE_URL rt +:+ endpoint)%string in
  let defaultHeaders : gmap string string :=
    getAuthHeader ss ∪ {[ "Content-Type"%string := "application/json"%string ]} in
  {| req_url := url;
     req_method := method options;
     req_headers := headers options ∪ defaultHeaders;
     req_body := body options |}.

(** [apiRequest] reads [sessionStorage] and never writes it. *)
Definition apiRequest (rt : Runtime) (ss : Storage)
    (endpoint : string) (options : RequestInit) : outcome value :=
  match fetch rt (build_request rt ss endpoint options) with
  | inl e => Throw e
  | inr response =>
      if negb (ok response) then
        let errorData :=
          match json response with
          | inr v => v
          | inl _ => VObj [("detail"%string, VStr "Request failed")]
          end in
        match read_prop (null_read_message rt) errorData "detail" with
        | Throw e => Throw e
        | Return detail =>
            match ToString (convert_message rt)
                    (or_else detail
                       (VStr ("HTTP error! status: " +:+
                              JsString.decimal (status response))%string)) with
            | Return message => Throw (JsError "Error" message)
            | Throw e => Throw e
            end
        end
      else
        match json response with
        | inr v => Return v
        | inl e => Throw e
        end
  end.

End Api.

(** ** The session: browser storage, the auth store, the console *)

Module Session.
Import Js Api.

(** The state fields of the Zustand auth store.  [user] and [token] hold
    [null] when absent; [isAdmin] is whatever [user?.isAdmin || false]
    evaluated to. *)
Record AuthState : Type := {
  user : value;
  isAdmin : value;
  isLoading : bool;
  token : value
}.

Record World : Type := {
  sessionStorage : gmap string string;
  store : AuthState;
  console : list (list string)
}.

(** The store's initial state (lines 27-30 of the auth store). *)
Definition initial_state : AuthState :=
  {| user := VNull; isAdmin := VBool false; isLoading := true; token := VNull |}.

(** The effect of [sessionStorage.setItem(k, v)] when the write is
    accepted. *)
Definition setItem (k v : string) (w : World) : World :=
  {| sessionStorage := <[k := v]> (sessionStorage w);
     store := store w; console := console w |}.

(** [sessionStorage.setItem(k, v)] as it runs: the value is converted to a
    string, and the browser refuses the write when the quota is exceeded. *)
Definition storage_write (rt : Runtime) (k : string) (v : value) (w : World)
    : outcome World :=
  match ToString (convert_message rt) v with
  | Throw e => Throw e
  | Return text =>
      if storage_accepts rt (sessionStorage w) k text
      then Return (setItem k text w)
      else Throw (JsError "QuotaExceededError" (quota_message rt))
  end.

Definition removeItem (k : string) (w : World) : World :=
  {| sessionStorage := delete k (sessionStorage w);
     store := store w; console := console w |}.

Definition getItem (k : string) (w : World) : option string :=
  sessionStorage w !! k.

Definition console_error (args : list string) (w : World) : World :=
  {| sessionStorage := sessionStorage w; store := store w;
     console := console w ++ [args] |}.

End Session.

(** ** The authentication service *)

Module AuthService.
Import Js Api Session.

(** [{ user, token, error }] *)
Record SignInResult : Type := {
  user : value;
  token : value;
  error : option string
}.

(** [{ valid, user }] *)
Record VerifyResult : Type := {
  valid : bool;
  verified_user : value
}.

(** The [catch] block of [signInAdmin]. *)
Definition signIn_catch (e : exn) (w : World) : SignInResult * World :=
  let errorMessage :=
    match e with
    | JsError _ message => message
    | Thrown _ => "Authentication failed"%string
    end in
  let w := console_error ["Sign in error:"%string; errorMessage] w in
  ({| user := VNull; token := VNull; error := Some errorMessage |}, w).

(** [{ method: 'POST', body: JSON.stringify({ email, password }) }] *)
Definition login_options (rt : Runtime) (email password : string) : RequestInit :=
  let credentials :=
    VObj [("email"%string, VStr email); ("password"%string, VStr password)] in
  {| method := Some "POST"%string; headers := ∅;
     body := Some (JSON_stringify rt credentials) |}.

Definition signInAdmin (rt : Runtime) (email password : string) (w : World)
    : SignInResult * World :=
  match apiRequest rt (sessionStorage w) "/api/auth/login"
          (login_options rt email password) with
  | Throw e => signIn_catch e w
  | Return response =>
      match read_prop (null_read_message rt) response "access_token" with
      | Throw e => signIn_catch e w
      | Return access_token =>
          match storage_write rt "auth_token" access_token w with
          | Throw e => signIn_catch e w
          | Return w =>
              ({| user := read_prop_opt response "user";
                  token := access_token;
                  error := None |}, w)
          end
      end
  end.


Definition getCurrentUser (rt : Runtime) (w : World) : value * World :=
  match getItem "auth_token" w with
  | None => (VNull, w)
  | Some token =>
      if negb (JsString.truthy token) then (VNull, w)
      else
        match apiRequest rt (sessionStorage w) "/api/auth/me" no_options with
        | Return response => (response, w)
        | Throw _ => (VNull, removeItem "auth_token" w)
        end
  end.

Definition hasValidToken (w : World) : bool :=
  match getItem "auth_token" w with
  | Some token => JsString.truthy token
  | None => false
  end.

Definition verifyToken (rt : Runtime) (w : World) : VerifyResult * World :=
  match getItem "auth_token" w with
  | None => ({| valid := false; verified_user := VNull |}, w)
  | Some token =>
      if negb (JsString.truthy token)
      then ({| valid := false; verified_user := VNull |}, w)
      else
        match apiRequest rt (sessionStorage w) "/api/auth/me" no_options with
        | Return u => ({| valid := true; verified_user := u |}, w)
        | Throw _ => ({| valid := false; verified_user := VNull |}, w)
        end
  end.

End AuthService.

(** ** The auth store *)

Module AuthStore.
Import Js Api Session.

(** [partialize]: the part of the state the [persist] middleware saves,
    wrapped with the store version as the middleware does. *)
Definition persisted (st : AuthState) : value :=
  VObj [("state"%string,
         VObj [("user"%string, user st); ("isAdmin"%string, isAdmin st);
               ("token"%string, token st)]);
        ("version"%string, VNum "0")].

(** [set(partial)] under [persist(..., { name: 'auth-storage', storage:
    createJSONStorage(() => sessionStorage) })]: the state is updated and
    the middleware writes the saved part back under the store's name.
    This and the actions below give the session an action leaves when it
    returns, its writes accepted; [Throwing.set] further down runs them
    against a storage that may refuse one. *)
Definition set (rt : Runtime) (update : AuthState -> AuthState) (w : World) : World :=
  let st := update (store w) in
  {| sessionStorage :=
       <["auth-storage"%string := JSON_stringify rt (persisted st)]> (sessionStorage w);
     store := st;
     console := console w |}.

Definition setUser (rt : Runtime) (u : value) : World -> World :=
  set rt (fun st =>
    {| user := u;
       isAdmin := or_else (read_prop_opt u "isAdmin") (VBool false);
       isLoading := isLoading st; token := token st |}).

Definition setIsAdmin (rt : Runtime) (a : value) : World -> World :=
  set rt (fun st =>
    {| user := user st; isAdmin := a; isLoading := isLoading st; token := token st |}).

Definition setIsLoading (rt : Runtime) (l : bool) : World -> World :=
  set rt (fun st =>
    {| user := user st; isAdmin := isAdmin st; isLoading := l; token := token st |}).

Definition setToken (rt : Runtime) (t : value) (w : World) : World :=
  let w := if truthy t then setItem "auth_token" (to_string t) w
           else removeItem "auth_token" w in
  set rt (fun st =>
    {| user := user st; isAdmin := isAdmin st; isLoading := isLoading st; token := t |}) w.


(** [initializeAuthListener]: the check made once when the app starts.
    [verifyToken] catches everything, so the [try] around it never fires. *)
Definition initializeAuthListener (rt : Runtime) (w : World) : World :=
  let st := store w in
  if truthy (user st) && truthy (token st) then
    setIsLoading rt false (setIsAdmin rt (read_prop_opt (user st) "isAdmin") w)
  else
    let w :=
      match getItem "auth_token" w with
      | Some storedToken =>
          if JsString.truthy storedToken then
            let '(r, w) := AuthService.verifyToken rt w in
            let verifiedUser := AuthService.verified_user r in
            if AuthService.valid r && truthy verifiedUser then
              setIsAdmin rt (read_prop_opt verifiedUser "isAdmin")
                (setUser rt verifiedUser w)
            else w
          else w
      | None => w
      end in
    setIsLoading rt false w.

(** The guard of the admin layout: protected content is rendered only when
    [!isLoading] and not [(!user || !isAdmin)]. *)
Definition admin_visible (st : AuthState) : bool :=
  negb (isLoading st) && truthy (user st) && truthy (isAdmin st).

End AuthStore.

(** ** Sample surroundings, for running the definitions *)

Module Sample.
Import Js Api Session.

(** A server that answers every request with the given status and body.
    The serializer, the error texts and the storage limit (five million
    characters a value) are stand-ins for those of a browser. *)
Definition answering (st : N) (answer : exn + value) : Runtime :=
  {| env := {| Utils.VITE_API_URL := None |};
     fetch := fun _ => inr {| status := st; json := answer |};
     JSON_stringify := to_string;
     null_read_message := fun k =>
       ("Cannot read properties of null (reading '" +:+ k +:+ "')")%string;
     convert_message := "Cannot convert object to primitive value";
     storage_accepts := fun _ _ text =>
       (N.of_nat (String.length text) <=? 5000000)%N;
     quota_message := "The quota has been exceeded." |}.

(** A tab that holds a token and a signed-in administrator. *)
Definition signed_in : World :=
  {| sessionStorage := {[ "auth_token"%string := "tok-123"%string ]};
     store := {| user := VObj [("id"%string, VStr "u1");
                               ("email"%string, VStr "owner@shop.test");
                               ("isAdmin"%string, VBool true)];
                 isAdmin := VBool true; isLoading := false;
                 token := VStr "tok-123" |};
     console := [] |}.

(** A fresh tab: nothing stored, the store in its initial state. *)
Definition fresh : World :=
  {| sessionStorage := ∅; store := initial_state; console := [] |}.

End Sample.

(** ** The calls that can throw

    [Utils.getEmbeddableImageUrl] and the store actions of [AuthStore] above
    give what the code returns and leaves when nothing is thrown.  Here the
    same lines are run with the exceptions of the built-ins they call:
    [encodeURIComponent] throws [URIError] on a string with a lone
    surrogate, and [sessionStorage.setItem] throws when the value cannot be
    converted or the browser refuses the write. *)

Module Throwing.
Import Js Api Session.

(** [encodeURIComponent(s)]; the text of the [URIError] is the engine's. *)
Definition encodeURIComponent (malformed : string) (s : string) : outcome string :=
  if JsString.well_formed s then Return (JsString.encodeURIComponent s)
  else Throw (JsError "URIError" malformed).

(** [getEmbeddableImageUrl] (lines 82-127 of [src/lib/utils.ts]).  Nothing
    in it catches, so the exception of the last line leaves the function. *)
Definition getEmbeddableImageUrl (malformed : string)
    (env : Utils.ImportMetaEnv) (url : Utils.url_arg) : outcome string :=
  match url with
  | Utils.Undefined | Utils.Null => Return "/placeholder.jpg"%string
  | Utils.Str url =>
      if negb (JsString.truthy url) then Return "/placeholder.jpg"%string
      else if JsString.startsWith url "data:" then Return url
      else if JsString.startsWith url "/" then Return url
      else if JsString.startsWith url "http://localhost" then Return url
      else if negb (JsString.includes url "google.com") &&
              negb (JsString.includes url "googleusercontent.com") then Return url
      else
        let fileId := Utils.fileId_of url in
        if JsString.truthy fileId then
          Return (Utils.apiUrl env +:+ "/api/images/drive/" +:+ fileId)%string
        else
          match encodeURIComponent malformed url with
          | Throw e => Throw e
          | Return encoded =>
              Return (Utils.apiUrl env +:+ "/api/images/proxy?url=" +:+ encoded)%string
          end
  end.

(** [set(partial)] under [persist]: the middleware sets the new state and
    then writes the saved part back.  A write that [sessionStorage] refuses
    is thrown on to the caller of the action, with the state already set
    and the saved copy as it was.  The result is the exception, if there is
    one, and the session the call leaves. *)
Definition set (rt : Runtime) (update : AuthState -> AuthState) (w : World)
    : option exn * World :=
  let st := update (store w) in
  if storage_accepts rt (sessionStorage w) "auth-storage"
       (JSON_stringify rt (AuthStore.persisted st))
  then (None, AuthStore.set rt update w)
  else (Some (JsError "QuotaExceededError" (quota_message rt)),
        {| sessionStorage := sessionStorage w; store := st; console := console w |}).

Definition setUser (rt : Runtime) (u : value) : World -> option exn * World :=
  set rt (fun st =>
    {| user := u;
       isAdmin := or_else (read_prop_opt u "isAdmin") (VBool false);
       isLoading := isLoading st; token := token st |}).

Definition setToken (rt : Runtime) (t : value) (w : World) : option exn * World :=
  let written :=
    if truthy t then storage_write rt "auth_token" t w
    else Return (removeItem "auth_token" w) in
  match written with
  | Throw e => (Some e, w)
  | Return w =>
      set rt (fun st =>
        {| user := user st; isAdmin := isAdmin st; isLoading := isLoading st;
           token := t |}) w
  end.

End Throwing.

(** ** [src/lib/api.ts]: form uploads *)

Module ApiForm.
Import Js Api.

(** What the upload code reads of a [File]. *)
Record File : Type := {
  file_type : string;
  file_size : N
}.

(** A [FormData]: the appended entries, in order. *)
Abbreviation FormData := (list (string * File)).

(** The request [apiFormRequest] hands to [fetch].  The only headers the
    code sets are those of [getAuthHeader]; [multipart] stands for the
    browser's encoding of the form as a request body. *)
Definition build_form_request (rt : Runtime) (multipart : FormData -> string)
    (ss : Storage) (endpoint : string) (formData : FormData) : Request :=
  {| req_url := (API_BASE_URL rt +:+ endpoint)%string;
     req_method := Some "POST"%string;
     req_headers := getAuthHeader ss;
     req_body := Some (multipart formData) |}.

Definition apiFormRequest (rt : Runtime) (multipart : FormData -> string)
    (ss : Storage) (endpoint : string) (formData : FormData) : outcome value :=
  match fetch rt (build_form_request rt multipart ss endpoint formData) with
  | inl e => Throw e
  | inr response =>
      if negb (ok response) then
        let errorData :=
          match json response with
          | inr v => v
          | inl _ => VObj [("detail"%string, VStr "Upload failed")]
          end in
        match read_prop (null_read_message rt) errorData "detail" with
        | Throw e => Throw e
        | Return detail =>
            match ToString (convert_message rt)
                    (or_else detail
                       (VStr ("HTTP error! status: " +:+
                              JsString.decimal (status response))%string)) with
            | Return message => Throw (JsError "Error" message)
            | Throw e => Throw e
            end
        end
      else
        match json response with
        | inr v => Return v
        | inl e => Throw e
        end
  end.

End ApiForm.

(** ** The services built on [apiRequest] *)

Module Services.
Import Js Api Session ApiForm.

(** How a caught value is recorded when it is passed to [console.error]:
    an [Error] by its name and message, anything else by [ToString]. *)
Definition exn_text (e : exn) : string :=
  match e with
  | JsError name message => (name +:+ ": " +:+ message)%string
  | Thrown v => to_string v
  end.

(** [error instanceof Error ? error.message : fallback] *)
Definition message_or (fallback : string) (e : exn) : string :=
  match e with
  | JsError _ message => message
  | Thrown _ => fallback
  end.

(** The shape shared by the read operations:
    [try { return await apiRequest(endpoint, options) }
     catch (error) { console.error(label, error); return fallback }]. *)
Definition request_or (rt : Runtime) (label : string) (fallback : value)
    (endpoint : string) (options : RequestInit) (w : World) : value * World :=
  match apiRequest rt (sessionStorage w) endpoint options with
  | Return v => (v, w)
  | Throw e => (fallback, console_error [label; exn_text e] w)
  end.

(** The shape shared by the write operations that answer with a boolean:
    [try { await apiRequest(endpoint, options); return true }
     catch (error) { console.error(label, error); return false }]. *)
Definition request_ok (rt : Runtime) (label : string)
    (endpoint : string) (options : RequestInit) (w : World) : bool * World :=
  match apiRequest rt (sessionStorage w) endpoint options with
  | Return _ => (true, w)
  | Throw e => (false, console_error [label; exn_text e] w)
  end.

Definition with_method (m : string) (b : option string) : RequestInit :=
  {| method := Some m; headers := ∅; body := b |}.

(** *** [src/lib/productService.ts] *)

Definition getEnabledProducts (rt : Runtime) : World -> value * World :=
  request_or rt "Error fetching products:" (VArr []) "/api/products" no_options.

Definition getProductsByCategory (rt : Runtime) (category : string)
    : World -> value * World :=
  request_or rt "Error fetching products by category:" (VArr [])
    ("/api/products?category=" +:+ category) no_options.

Definition getProductById (rt : Runtime) (id : string) : World -> value * World :=
  request_or rt "Error fetching product:" VNull ("/api/products/" +:+ id) no_options.

Definition getAllProducts (rt : Runtime) : World -> value * World :=
  request_or rt "Error fetching all products:" (VArr []) "/api/products/admin/all"
    no_options.

Definition emptyStats : value :=
  VObj [("totalProducts"%string, VNum "0"); ("enabledProducts"%string, VNum "0");
        ("categories"%string, VArr [])].

Definition getProductStats (rt : Runtime) : World -> value * World :=
  request_or rt "Error fetching product stats:" emptyStats "/api/products/stats"
    no_options.

(** The fields of [ProductFormData], in the order the code copies them. *)
Definition product_fields : list string :=
  ["name"; "category"; "price"; "discount"; "description"; "enabled";
   "sizes"; "colors"]%string.


(** The object [updateProduct] builds: the fields that are not [undefined],
    then [image_data] when [imageData] is a non-empty string. *)
Definition updateData (data : value) (imageData : option string)
    : list (string * value) :=
  omap (fun k =>
          match read_prop_opt data k with
          | VUndefined => None
          | v => Some (k, v)
          end) product_fields ++
  match imageData with
  | Some s => if JsString.truthy s then [("image_data"%string, VStr s)] else []
  | None => []
  end.

Definition updateProduct (rt : Runtime) (id : string) (data : value)
    (imageData : option string) (w : World) : bool * World :=
  match read_prop (null_read_message rt) data "name" with
  | Throw e =>
      (false, console_error ["Error updating product:"%string; exn_text e] w)
  | Return _ =>
      request_ok rt "Error updating product:" ("/api/products/" +:+ id)
        (with_method "PUT" (Some (JSON_stringify rt (VObj (updateData data imageData)))))
        w
  end.

Definition toggleProductEnabled (rt : Runtime) (id : string) (enabled : bool)
    : World -> bool * World :=
  request_ok rt "Error toggling product:"
    ("/api/products/" +:+ id +:+ "/toggle-enabled?enabled=" +:+
     to_string (VBool enabled))
    (with_method "PATCH" None).

Definition deleteProduct (rt : Runtime) (id : string) : World -> bool * World :=
  request_ok rt "Error deleting product:" ("/api/products/" +:+ id)
    (with_method "DELETE" None).

Definition getCategories (rt : Runtime) : World -> value * World :=
  request_or rt "Error fetching categories:" (VArr []) "/api/categories" no_options.

Definition getAllCategories (rt : Runtime) : World -> value * World :=
  request_or rt "Error fetching all categories:" (VArr [])
    "/api/categories/admin/all" no_options.

(** [createCategory(name, slug, description?)] *)
Definition createCategory (rt : Runtime) (name slug : string)
    (description : option string) (w : World) : value * World :=
  let failed (e : exn) :=
    (VNull, console_error ["Error creating category:"%string; exn_text e] w) in
  let payload :=
    VObj [("name"%string, VStr name); ("slug"%string, VStr slug);
          ("description"%string,
           VStr match description with
                | Some d => if JsString.truthy d then d else EmptyString
                | None => EmptyString
                end)] in
  match apiRequest rt (sessionStorage w) "/api/categories"
          (with_method "POST" (Some (JSON_stringify rt payload))) with
  | Throw e => failed e
  | Return response =>
      match read_prop (null_read_message rt) response "id" with
      | Throw e => failed e
      | Return id => (id, w)
      end
  end.

Definition deleteCategory (rt : Runtime) (id : string) : World -> bool * World :=
  request_ok rt "Error deleting category:" ("/api/categories/" +:+ id)
    (with_method "DELETE" None).

Definition seedCategories (rt : Runtime) : World -> value * World :=
  request_or rt "Error seeding categories:" (VArr []) "/api/categories/seed"
    (with_method "POST" None).

(** *** [src/lib/settingsService.ts] *)

Definition defaultSettings : value :=
  VObj [("homepageEnabled"%string, VBool true);
        ("productsPageEnabled"%string, VBool true);
        ("siteName"%string, VStr "Mohona Textiles");
        ("siteDescription"%string, VStr "Premium quality clothing for men and women")].

Definition getSiteSettings (rt : Runtime) : World -> value * World :=
  request_or rt "Error fetching settings:" defaultSettings "/api/settings" no_options.

Definition updateSiteSettings (rt : Runtime) (settings : value)
    : World -> bool * World :=
  request_ok rt "Error updating settings:" "/api/settings"
    (with_method "PUT" (Some (JSON_stringify rt settings))).

(** *** [src/lib/storageService.ts] *)

Record Validation : Type := {
  valid : bool;
  validation_error : option string
}.

Definition allowedTypes : list string :=
  ["image/jpeg"; "image/png"; "image/gif"; "image/webp"]%string.

(** [5 * 1024 * 1024] *)
Definition maxSize : N := 5 * 1024 * 1024.

Definition validateImage (file : File) : Validation :=
  if negb (existsb (String.eqb (file_type file)) allowedTypes) then
    {| valid := false;
       validation_error :=
         Some "Invalid file type. Only JPEG, PNG, GIF, and WebP are allowed."%string |}
  else if (maxSize <? file_size file)%N then
    {| valid := false;
       validation_error := Some "File size too large. Maximum size is 5MB."%string |}
  else {| valid := true; validation_error := None |}.

(** [{ url, error }] *)
Record UploadResult : Type := {
  url : value;
  upload_error : option string
}.

(** [uploadImage(file, folder = 'products')] *)
Definition uploadImage (rt : Runtime) (multipart : FormData -> string)
    (file : File) (folder : option string) (w : World) : UploadResult * World :=
  let failed (e : exn) :=
    let errorMessage := message_or "Upload failed" e in
    ({| url := VNull; upload_error := Some errorMessage |},
     console_error ["Upload error:"%string; errorMessage] w) in
  let folder := default "products"%string folder in
  let validation := validateImage file in
  if negb (valid validation) then
    ({| url := VNull; upload_error := validation_error validation |}, w)
  else
    match apiFormRequest rt multipart (sessionStorage w)
            ("/api/upload/image?folder=" +:+ folder) [("file"%string, file)] with
    | Throw e => failed e
    | Return response =>
        match read_prop (null_read_message rt) response "url" with
        | Throw e => failed e
        | Return u => ({| url := u; upload_error := None |}, w)
        end
    end.

(** [{ success, error }] *)
Record DeleteResult : Type := {
  success : bool;
  delete_error : option string
}.

Definition deleteImage (rt : Runtime) (imageUrl : string) (w : World)
    : DeleteResult * World :=
  match apiRequest rt (sessionStorage w)
          ("/api/upload/image?image_url=" +:+ JsString.encodeURIComponent imageUrl)
          (with_method "DELETE" None) with
  | Return _ => ({| success := true; delete_error := None |}, w)
  | Throw e =>
      let errorMessage := message_or "Delete failed" e in
      ({| success := false; delete_error := Some errorMessage |},
       console_error ["Delete error:"%string; errorMessage] w)
  end.

End Services.

(** ** The settings store ([src/store/settingsStore.ts]) *)

Module SettingsStore.
Import Js Api Session Services.

Record SettingsState : Type := {
  settings : value;
  isLoading : bool
}.

Record App : Type := {
  world : World;
  settings_store : SettingsState
}.

(** The store's own [defaultSettings] (it carries [driveFolderId], which the
    service's fallback of the same name does not). *)
Definition defaultSettings : value :=
  VObj [("homepageEnabled"%string, VBool true);
        ("productsPageEnabled"%string, VBool true);
        ("siteName"%string, VStr "Mohona Textiles");
        ("siteDescription"%string, VStr "Premium quality clothing for men and women");
        ("driveFolderId"%string, VStr "1ms1u6tuw22Bsl1SsGpR1zXtkR_zsgddx")].

Definition initial_state : SettingsState :=
  {| settings := defaultSettings; isLoading := true |}.

Definition setSettings (s : value) (a : App) : App :=
  {| world := world a;
     settings_store := {| settings := s; isLoading := isLoading (settings_store a) |} |}.

Definition setIsLoading (l : bool) (a : App) : App :=
  {| world := world a;
     settings_store := {| settings := settings (settings_store a); isLoading := l |} |}.

(** [getSiteSettings] catches everything, so the [try] around it in the
    three functions below never fires. *)
Definition fetchSettings (rt : Runtime) (a : App) : App :=
  let '(s, w) := getSiteSettings rt (world a) in
  setSettings s {| world := w; settings_store := settings_store a |}.

Definition refreshSettings (rt : Runtime) (a : App) : App := fetchSettings rt a.

Definition initializeSettings (rt : Runtime) (a : App) : App :=
  setIsLoading false (fetchSettings rt a).

(** The test the public pages make: [if (!settings.homepageEnabled)] shows
    the "coming soon" notice instead of the page. *)
Definition page_enabled (flag : string) (s : SettingsState) : bool :=
  truthy (read_prop_opt (settings s) flag).

End SettingsStore.

(** ** The admin pages: sign-in form, layout guard, sign-out *)

Module AdminPages.
Import Js Api Session AuthService AuthStore.

Inductive toast : Type :=
| ToastError (message : string)
| ToastSuccess (message : string).

(** What a handler can touch: the session, the notices shown, the routes
    navigated to, and the form's [isSubmitting] flag. *)
Record Page : Type := {
  world : World;
  toasts : list toast;
  navigations : list string;
  isSubmitting : bool
}.

Definition show (t : toast) (p : Page) : Page :=
  {| world := world p; toasts := toasts p ++ [t];
     navigations := navigations p; isSubmitting := isSubmitting p |}.

Definition navigate (route : string) (p : Page) : Page :=
  {| world := world p; toasts := toasts p;
     navigations := navigations p ++ [route]; isSubmitting := isSubmitting p |}.

Definition setIsSubmitting (b : bool) (p : Page) : Page :=
  {| world := world p; toasts := toasts p;
     navigations := navigations p; isSubmitting := b |}.

Definition in_world (f : World -> World) (p : Page) : Page :=
  {| world := f (world p); toasts := toasts p;
     navigations := navigations p; isSubmitting := isSubmitting p |}.

(** The [catch] block of [handleSubmit] (lines 341-343). *)
Definition submit_catch (p : Page) : Page :=
  show (ToastError "Login failed. Please try again.") p.

(** The two store actions of the success path (lines 335-336), in order;
    the second is not reached when the first throws. *)
Definition store_login (rt : Runtime) (u t : value) (w : World) : option exn * World :=
  match Throwing.setUser rt u w with
  | (Some e, w) => (Some e, w)
  | (None, w) => Throwing.setToken rt t w
  end.

(** [AdminLogin]'s [handleSubmit].  [signInAdmin] catches everything it
    raises; the two store actions write to [sessionStorage], and what they
    throw lands in the [catch]. *)
Definition handleSubmit (rt : Runtime) (email password : string) (p : Page) : Page :=
  if negb (JsString.truthy email) || negb (JsString.truthy password) then
    show (ToastError "Please enter email and password") p
  else
    let p := setIsSubmitting true p in
    let '(r, w) := signInAdmin rt email password (world p) in
    let p := in_world (fun _ => w) p in
    let p :=
      match error r with
      | Some message =>
          if JsString.truthy message then show (ToastError message) p else p
      | None =>
          if truthy (AuthService.user r) && truthy (AuthService.token r) then
            match store_login rt (AuthService.user r) (AuthService.token r)
                    (world p) with
            | (Some _, w) => submit_catch (in_world (fun _ => w) p)
            | (None, w) =>
                let p := in_world (fun _ => w) p in
                let p := show (ToastSuccess "Welcome back!") p in
                navigate "/admin" p
            end
          else p
      end in
    setIsSubmitting false p.


(** What [AdminLayout] renders. *)
Inductive view : Type :=
| Spinner
| Blank
| Content.

Definition layout_view (st : AuthState) : view :=
  if Session.isLoading st then Spinner
  else if negb (truthy (Session.user st)) || negb (truthy (Session.isAdmin st))
  then Blank
  else Content.

(** [AdminLayout]'s effect navigates to ['/admin/login']. *)
Definition layout_redirects (st : AuthState) : bool :=
  negb (Session.isLoading st) &&
  (negb (truthy (Session.user st)) || negb (truthy (Session.isAdmin st))).

(** [AdminLogin]'s effect navigates to ['/admin']. *)
Definition login_redirects (st : AuthState) : bool :=
  negb (Session.isLoading st) && truthy (Session.user st) &&
  truthy (Session.isAdmin st).

End AdminPages.

(** ** [slugify] ([src/lib/utils.ts])

    [slugify] looks at whitespace, and JavaScript's whitespace includes
    characters outside ASCII, so here a string is the list of its UTF-16
    code units.  Every whitespace character is a single code unit.
    [toLowerCase] is taken as given. *)

Module Slug.

Abbreviation text := (list N).

Definition between (lo hi u : N) : bool := (lo <=? u)%N && (u <=? hi)%N.

(** [[A-Za-z0-9]] *)
Definition is_alnum (u : N) : bool :=
  between 97 122 u || between 65 90 u || between 48 57 u.

(** [\w] *)
Definition is_word (u : N) : bool := is_alnum u || (u =? 95)%N.

(** [\s], which is also what [trim] removes: tab, line feed, vertical tab,
    form feed, carriage return, space, no-break space, the Unicode space
    separators, the line and paragraph separators and the byte-order mark. *)
Definition is_space (u : N) : bool :=
  between 9 13 u ||
  existsb (N.eqb u) [32; 160; 5760; 8232; 8233; 8239; 8287; 12288; 65279]%N ||
  between 8192 8202 u.

Definition is_dash (u : N) : bool := (u =? 45)%N.

(** [[\s_-]] *)
Definition is_separator (u : N) : bool :=
  is_space u || (u =? 95)%N || is_dash u.

Fixpoint drop_while (P : N -> bool) (l : text) : text :=
  match l with
  | [] => []
  | u :: l' => if P u then drop_while P l' else l
  end.

Definition drop_while_end (P : N -> bool) (l : text) : text :=
  rev (drop_while P (rev l)).

(** [s.trim()] *)
Definition trim (l : text) : text := drop_while_end is_space (drop_while is_space l).

(** [s.replace(/[^\w\s-]/g, '')] *)
Definition remove_others (l : text) : text :=
  List.filter (fun u => is_word u || is_space u || is_dash u) l.

(** [s.replace(/[\s_-]+/g, '-')]: every maximal run of separators becomes
    one hyphen.  [in_run] says the previous unit was a separator. *)
Fixpoint collapse_from (in_run : bool) (l : text) : text :=
  match l with
  | [] => []
  | u :: l' =>
      if is_separator u then
        if in_run then collapse_from true l' else 45%N :: collapse_from true l'
      else u :: collapse_from false l'
  end.

Definition collapse : text -> text := collapse_from false.

(** [s.replace(/^-+|-+$/g, '')] *)
Definition strip_dashes (l : text) : text :=
  drop_while_end is_dash (drop_while is_dash l).

Definition slugify (toLowerCase : text -> text) (s : text) : text :=
  strip_dashes (collapse (remove_others (trim (toLowerCase s)))).

(** The shape of a finished slug: letters, digits and hyphens, with no
    hyphen first, last, or next to another. *)
Fixpoint no_double_dash (l : text) : bool :=
  match l with
  | u :: ((v :: _) as l') => negb (is_dash u && is_dash v) && no_double_dash l'
  | _ => true
  end.

Definition slug_shaped (l : text) : bool :=
  forallb (fun u => is_alnum u || is_dash u) l &&
  match l with [] => true | u :: _ => negb (is_dash u) end &&
  match rev l with [] => true | u :: _ => negb (is_dash u) end &&
  no_double_dash l.

(** ASCII lower-casing, enough to run [slugify] on ASCII text. *)
Definition ascii_lower (l : text) : text :=
  map (fun u => if between 65 90 u then (u + 32)%N else u) l.

End Slug.

(** ** Vocabulary for the properties of the normalizers *)

Module Shapes.
Import JsString Regex.

(** One of the three prefixes [getEmbeddableImageUrl] lets through. *)
Definition passes_through (s : string) : bool :=
  startsWith s "data:" || startsWith s "/" || startsWith s "http://localhost".

Fixpoint every_char (P : ascii -> bool) (s : string) : bool :=
  match s with
  | EmptyString => true
  | String c s' => P c && every_char P s'
  end.

(** Safe inside a query-string value: an unreserved character, or the
    percent sign of an escape. *)
Definition query_safe (c : ascii) : bool := uri_unreserved c || Ascii.eqb c "%".

(** [extractDriveUrl] with the lines of its third attempt ([ucMatch])
    deleted. *)
Definition fileId_without_uc (input : string) : string :=
  let fileId := EmptyString in
  let fileMatch := exec AdminProducts.file_re input in
  let fileId := match fileMatch with Some g => g | None => fileId end in
  let openMatch := exec AdminProducts.open_re input in
  let fileId := assign_if_unset fileId openMatch in
  let fileId :=
    if negb (truthy fileId) && test_bare_id 20 input then input else fileId in
  fileId.

End Shapes.

(** ** Vocabulary for the properties of the session *)

Module Invariants.
Import Js Api Session AuthStore.

(** The copy under ['auth-storage'] is that of the current store. *)
Definition saved_copy_current (rt : Runtime) (w : World) : Prop :=
  sessionStorage w !! "auth-storage"%string =
    Some (JSON_stringify rt (persisted (store w))).

(** The token in [sessionStorage] is the one the store holds. *)
Definition token_in_step (w : World) : Prop :=
  sessionStorage w !! "auth_token"%string =
    if truthy (token (store w)) then Some (to_string (token (store w))) else None.

End Invariants.

(** * Properties *)

(** ** Strings *)

Section StringFacts.
Import JsString.

Lemma append_nil_r (s : string) : (s +:+ EmptyString)%string = s.
Proof. induction s as [|c s IH]; simpl; [done | by rewrite IH]. Qed.

Lemma append_assoc (a b c : string) :
  ((a +:+ b) +:+ c)%string = (a +:+ b +:+ c)%string.
Proof. induction a as [|x a IH]; simpl; [done | by rewrite IH]. Qed.

Lemma length_append (a b : string) :
  String.length (a +:+ b) = String.length a + String.length b.
Proof. induction a as [|x a IH]; simpl; [done | by rewrite IH]. Qed.

Lemma truthy_nonempty (s : string) : truthy s = true <-> s <> EmptyString.
Proof. destruct s; simpl; split; congruence. Qed.

Lemma startsWith_append (p t : string) : startsWith (p +:+ t) p = true.
Proof.
  induction p as [|c p IH]; simpl; [done |].
  by rewrite Ascii.eqb_refl, IH.
Qed.

Lemma startsWith_split (s p : string) :
  startsWith s p = true -> exists t, s = (p +:+ t)%string.
Proof.
  revert s; induction p as [|c p IH]; intros s H; simpl in *.
  - by exists s.
  - destruct s as [|d s]; [done |].
    apply andb_true_iff in H as [Hc Hs].
    apply Ascii.eqb_eq in Hc as ->.
    destruct (IH _ Hs) as [t ->]. by exists t.
Qed.

Lemma includes_append (pre p post : string) :
  includes (pre +:+ p +:+ post) p = true.
Proof.
  induction pre as [|c pre IH].
  - simpl. destruct (p +:+ post)%string eqn:E; simpl.
    + destruct p; [done | discriminate E].
    + rewrite <- E, startsWith_append. done.
  - simpl. rewrite IH. apply orb_true_r.
Qed.

Lemma includes_split (s p : string) :
  includes s p = true -> exists pre post, s = (pre +:+ p +:+ post)%string.
Proof.
  induction s as [|c s IH]; simpl; intros H.
  - rewrite orb_false_r in H. apply startsWith_split in H as [t ->].
    by exists EmptyString, t.
  - apply orb_true_iff in H as [H | H].
    + apply startsWith_split in H as [t ->]. by exists EmptyString, t.
    + destruct (IH H) as (pre & post & ->). by exists (String c pre), post.
Qed.

Lemma drop_append (pre t : string) : drop (String.length pre) (pre +:+ t) = t.
Proof. induction pre as [|c pre IH]; simpl; [by destruct t | done]. Qed.

Lemma drop_split (n : nat) (s : string) :
  n <= String.length s ->
  exists pre, s = (pre +:+ drop n s)%string /\ String.length pre = n.
Proof.
  revert s; induction n as [|n IH]; intros s Hn.
  - exists EmptyString. by destruct s.
  - destruct s as [|c s]; simpl in *; [lia |].
    destruct (IH s) as (pre & Hs & Hl); [lia |].
    exists (String c pre). simpl. by rewrite <- Hs, Hl.
Qed.

End StringFacts.

Local Arguments JsString.startsWith : simpl never.
Local Arguments JsString.includes : simpl never.

(** ** The matcher against a declarative reading of the patterns *)

Section RegexFacts.
Import JsString Regex.

Lemma exec_unfold (p : pattern) (s : string) :
  exec p s =
  match match_here p s with
  | Some g => Some g
  | None => match s with EmptyString => None | String _ s' => exec p s' end
  end.
Proof. by destruct s. Qed.

Lemma match_atoms_append (p : pattern) (l r : string) :
  match_atoms p l = Some EmptyString -> match_atoms p (l +:+ r) = Some r.
Proof.
  revert l; induction p as [|a p IH]; intros l H; simpl in *.
  - by injection H as ->.
  - destruct l as [|c l]; [done |]. simpl.
    destruct (atom_accepts a c); [by apply IH | done].
Qed.

Lemma match_atoms_split (p : pattern) (s r : string) :
  match_atoms p s = Some r ->
  exists l, s = (l +:+ r)%string /\ match_atoms p l = Some EmptyString.
Proof.
  revert s; induction p as [|a p IH]; intros s H; simpl in *.
  - injection H as ->. by exists EmptyString.
  - destruct s as [|c s]; [done |].
    destruct (atom_accepts a c) eqn:Ha; [| done].
    destruct (IH _ H) as (l & -> & Hl).
    exists (String c l). simpl. by rewrite Ha.
Qed.

Lemma match_atoms_lit (w l : string) :
  match_atoms (lit w) l = Some EmptyString <-> l = w.
Proof.
  revert l; induction w as [|c w IH]; intros l; simpl.
  - split; [by intros [= ->] | by intros ->].
  - destruct l as [|d l]; [split; done |].
    destruct (Ascii.eqb_spec d c) as [-> | Hne].
    + rewrite IH. split; [by intros -> | by intros [= ->]].
    + split; [done | intros [= ? ?]; done].
Qed.

Lemma id_run_append (g rest : string) :
  all_id g = true -> id_stops rest = true -> id_run (g +:+ rest) = g.
Proof.
  induction g as [|c g IH]; simpl; intros Hg Hrest.
  - destruct rest as [|d rest]; [done |]. simpl in *.
    by destruct (is_id_char d).
  - apply andb_true_iff in Hg as [-> Hg]. by rewrite IH.
Qed.

Lemma id_run_split (s : string) :
  exists rest,
    s = (id_run s +:+ rest)%string /\ all_id (id_run s) = true /\
    id_stops rest = true.
Proof.
  induction s as [|c s (rest & Hs & Hall & Hstop)]; simpl.
  - by exists EmptyString.
  - destruct (is_id_char c) eqn:Hc.
    + exists rest. simpl. rewrite Hc, Hall. by rewrite <- Hs.
    + exists (String c s). simpl. by rewrite Hc.
Qed.

Lemma match_here_intro (p : pattern) (l g rest : string) :
  match_atoms p l = Some EmptyString ->
  truthy g = true -> all_id g = true -> id_stops rest = true ->
  match_here p (l +:+ g +:+ rest) = Some g.
Proof.
  intros Hl Hg Hall Hstop. unfold match_here.
  rewrite (match_atoms_append _ _ _ Hl), (id_run_append _ _ Hall Hstop).
  by destruct g.
Qed.

Lemma match_here_elim (p : pattern) (s g : string) :
  match_here p s = Some g ->
  exists l rest,
    s = (l +:+ g +:+ rest)%string /\ match_atoms p l = Some EmptyString /\
    truthy g = true /\ all_id g = true /\ id_stops rest = true.
Proof.
  unfold match_here. intros H.
  destruct (match_atoms p s) as [r|] eqn:Hr; [| done].
  destruct (match_atoms_split _ _ _ Hr) as (l & -> & Hl).
  destruct (id_run_split r) as (rest & Hs & Hall & Hstop).
  destruct (id_run r) as [|c g'] eqn:Hg; [done |].
  injection H as <-. exists l, rest. by rewrite <- Hs.
Qed.

(** A string headed by an identifier character after the prefix matches. *)
Lemma match_here_head (p : pattern) (l : string) (c : ascii) (t : string) :
  match_atoms p l = Some EmptyString -> is_id_char c = true ->
  exists g, match_here p (l +:+ String c t) = Some g.
Proof.
  intros Hl Hc. unfold match_here.
  rewrite (match_atoms_append _ _ _ Hl). simpl. rewrite Hc. eauto.
Qed.

Lemma exec_here (p : pattern) (s g : string) :
  match_here p s = Some g -> exec p s = Some g.
Proof. intros H. by rewrite exec_unfold, H. Qed.

Lemma exec_skip (p : pattern) (pre t : string) :
  (forall n, n < String.length pre -> match_here p (drop n (pre +:+ t)) = None) ->
  exec p (pre +:+ t) = exec p t.
Proof.
  induction pre as [|c pre IH]; intros H; [done |].
  assert (H0 : match_here p (String c (pre +:+ t)) = None).
  { apply (H 0). simpl. lia. }
  simpl String.append. rewrite exec_unfold, H0.
  apply IH. intros n Hn. apply (H (S n)). simpl. lia.
Qed.

Lemma exec_elim (p : pattern) (s g : string) :
  exec p s = Some g ->
  exists n,
    n <= String.length s /\ match_here p (drop n s) = Some g /\
    forall m, m < n -> match_here p (drop m s) = None.
Proof.
  induction s as [|c s IH]; intros H; rewrite exec_unfold in H.
  - destruct (match_here p EmptyString) eqn:Hh; [| done].
    injection H as ->. exists 0.
    split; [simpl; lia | split; [done | intros; lia]].
  - destruct (match_here p (String c s)) eqn:Hh.
    + injection H as ->. exists 0.
      split; [simpl; lia | split; [done | intros; lia]].
    + destruct (IH H) as (n & Hn & Hm & Hbefore).
      exists (S n). split; [simpl; lia | split; [done |]].
      intros [|m] Hlt; [done |]. apply Hbefore. lia.
Qed.

Lemma exec_found (p : pattern) (n : nat) (s g : string) :
  match_here p (drop n s) = Some g -> exists g', exec p s = Some g'.
Proof.
  revert s; induction n as [|n IH]; intros s H.
  - exists g. apply exec_here. by destruct s.
  - rewrite exec_unfold. destruct (match_here p s) eqn:Hh; [eauto |].
    destruct s as [|c s]; simpl in H; [congruence |]. by apply IH.
Qed.

Lemma exec_capture (p : pattern) (s g : string) :
  exec p s = Some g -> truthy g = true /\ all_id g = true.
Proof.
  intros H. destruct (exec_elim _ _ _ H) as (n & _ & Hh & _).
  destruct (match_here_elim _ _ _ Hh) as (l & rest & _ & _ & Hg & Hall & _).
  done.
Qed.

(** The leftmost occurrence decides the match. *)
Lemma first_segment_exec (w url pre id rest : string) :
  first_segment w url pre id rest -> exec (lit w) url = Some id.
Proof.
  intros (-> & Hid & Hall & Hstop & Hfirst).
  rewrite exec_skip.
  - apply exec_here, match_here_intro; try done. by apply match_atoms_lit.
  - intros n Hn.
    destruct (match_here _ _) as [g|] eqn:Hh; [exfalso | done].
    destruct (match_here_elim _ _ _ Hh) as (l & r & Hd & Hl & Hg & _ & _).
    apply match_atoms_lit in Hl as ->.
    destruct g as [|c g]; [done |].
    destruct (drop_split n (pre +:+ w +:+ id +:+ rest)) as (pre0 & Hs & Hlen).
    { rewrite length_append. lia. }
    rewrite Hd in Hs. simpl in Hs.
    pose proof (exec_here _ _ _ Hh) as Hex.
    apply exec_capture in Hex as [_ Hc]. simpl in Hc.
    apply andb_true_iff in Hc as [Hc _].
    specialize (Hfirst pre0 c (g +:+ r)%string Hs Hc). lia.
Qed.

Lemma first_segment_check (w url pre id rest : string) :
  first_segment_b w url pre id rest = true -> first_segment w url pre id rest.
Proof.
  unfold first_segment_b, first_segment. intros H.
  apply andb_true_iff in H as [H Hscan].
  apply andb_true_iff in H as [H Hstop].
  apply andb_true_iff in H as [H Hall].
  apply andb_true_iff in H as [H Hid].
  apply String.eqb_eq in H. repeat split; try done.
  intros pre' c rest' Hurl Hc.
  destruct (le_lt_dec (String.length pre) (String.length pre')) as [|Hlt]; [done |].
  exfalso.
  rewrite forallb_forall in Hscan.
  specialize (Hscan (String.length pre')).
  rewrite Hurl, drop_append in Hscan.
  destruct (match_here_head (lit w) w c rest') as [g Hg];
    [by apply match_atoms_lit | done |].
  rewrite Hg in Hscan.
  rewrite bool_decide_eq_true_2 in Hscan by eauto.
  assert (negb true = true); [| done].
  apply Hscan, in_seq. lia.
Qed.

(** For a literal prefix the matcher and the declarative reading coincide. *)
Lemma exec_lit_spec (w s g : string) :
  exec (lit w) s = Some g <-> exists pre rest, first_segment w s pre g rest.
Proof.
  split; [| intros (pre & rest & H); by apply first_segment_exec with pre rest].
  intros (n & Hn & Hh & Hbefore)%exec_elim.
  destruct (match_here_elim _ _ _ Hh) as (l & rest & Hd & Hl & Hg & Hall & Hstop).
  apply match_atoms_lit in Hl as ->.
  destruct (drop_split n s Hn) as (pre & Hs & Hlen).
  exists pre, rest. rewrite Hd in Hs.
  repeat split; try done.
  intros pre' c rest' Hs' Hc.
  destruct (le_lt_dec (String.length pre) (String.length pre')) as [|Hlt]; [done |].
  exfalso. specialize (Hbefore (String.length pre')).
  rewrite Hs', drop_append in Hbefore.
  destruct (match_here_head (lit w) w c rest') as [g' Hg'];
    [by apply match_atoms_lit | done |].
  rewrite Hg' in Hbefore. discriminate Hbefore. lia.
Qed.

End RegexFacts.

(** ** The display-time normalizer *)

Section DisplayNormalizer.
Import JsString Regex Utils.

Lemma assign_if_unset_keep (fileId : string) (m : option string) :
  truthy fileId = true -> assign_if_unset fileId m = fileId.
Proof. intros H. unfold assign_if_unset. rewrite H. by destruct m. Qed.

Lemma assign_if_unset_first (m : option string) :
  assign_if_unset EmptyString m = default EmptyString m.
Proof. by destruct m. Qed.

(** The inlined conditionals compute the first match of the ordered list. *)
Lemma fileId_of_first_match (url : string) :
  fileId_of url = default EmptyString (first_match priority url).
Proof.
  unfold fileId_of, priority, first_match.
  repeat match goal with
  | |- context [exec ?p url] =>
      let E := fresh "E" in
      let g := fresh "g" in
      destruct (exec p url) as [g|] eqn:E;
      [ apply exec_capture in E as [E _];
        simpl; rewrite ?E; simpl; rewrite ?(assign_if_unset_keep g) by done; done
      | simpl ]
  end.
  done.
Qed.

Lemma first_match_here (ps1 ps2 : list pattern) (p : pattern) (url g : string) :
  Forall (fun q => exec q url = None) ps1 -> exec p url = Some g ->
  first_match (ps1 ++ p :: ps2) url = Some g.
Proof.
  intros Hnone Hp. induction Hnone as [|q ps1 Hq _ IH]; simpl.
  - by rewrite Hp.
  - by rewrite Hq.
Qed.

Lemma reaches_extraction_result (env : ImportMetaEnv) (url : string) :
  reaches_extraction url = true ->
  getEmbeddableImageUrl env (Str url) =
    if truthy (fileId_of url)
    then (apiUrl env +:+ "/api/images/drive/" +:+ fileId_of url)%string
    else (apiUrl env +:+ "/api/images/proxy?url=" +:+ encodeURIComponent url)%string.
Proof.
  unfold reaches_extraction. intros H.
  apply andb_true_iff in H as [H Hhost].
  apply andb_true_iff in H as [H Hlocal].
  apply andb_true_iff in H as [H Hpath].
  apply andb_true_iff in H as [Hne Hdata].
  apply negb_true_iff in Hlocal, Hpath, Hdata.
  unfold getEmbeddableImageUrl, embeddable_of_string.
  rewrite Hne, Hdata, Hpath, Hlocal. simpl negb.
  apply orb_true_iff in Hhost as [-> | ->]; simpl; [done |].
  by rewrite andb_false_r.
Qed.

Lemma earliest_match_result (env : ImportMetaEnv) (url : string)
    (ps1 ps2 : list pattern) (p : pattern) (g : string) :
  reaches_extraction url = true ->
  priority = ps1 ++ p :: ps2 ->
  Forall (fun q => exec q url = None) ps1 ->
  exec p url = Some g ->
  fileId_of url = g /\
  getEmbeddableImageUrl env (Str url) =
    (apiUrl env +:+ "/api/images/drive/" +:+ g)%string.
Proof.
  intros Hreach Hsplit Hnone Hp.
  assert (Hid : fileId_of url = g).
  { rewrite fileId_of_first_match, Hsplit.
    by rewrite (first_match_here _ _ _ _ _ Hnone Hp). }
  split; [done |].
  rewrite (reaches_extraction_result _ _ Hreach), Hid.
  apply exec_capture in Hp as [-> _]. done.
Qed.

Lemma fileId_from_kept (fileId : string) (matches : list (option string)) :
  truthy fileId = true -> fold_left assign_if_unset matches fileId = fileId.
Proof.
  intros H. induction matches as [|m matches IH]; [done |].
  simpl. by rewrite assign_if_unset_keep.
Qed.

(** Once a result is a match, with every earlier one a failure, its capture
    is the value, whatever the later results are. *)
Lemma fileId_from_first (earlier later : list (option string)) (g : string) :
  Forall (fun m => m = None) earlier ->
  g <> EmptyString ->
  fileId_from (earlier ++ Some g :: later) = g.
Proof.
  intros Hnone Hg. apply truthy_nonempty in Hg. unfold fileId_from.
  induction Hnone as [|m earlier -> _ IH]; simpl.
  - by apply fileId_from_kept.
  - exact IH.
Qed.

(** Without either host name the input comes back as it is, whichever of
    the earlier checks lets it through. *)
Lemma no_host_unchanged (env : ImportMetaEnv) (url : string) :
  includes url "google.com" = false ->
  includes url "googleusercontent.com" = false ->
  embeddable_of_string env url = url.
Proof.
  intros H1 H2. unfold embeddable_of_string. rewrite H1, H2.
  cbn [negb andb]. by repeat destruct (startsWith url _).
Qed.

End DisplayNormalizer.

Section DisplayClaims.
Import JsString Regex Utils.

(** C5.  For an absent input ([null] or [undefined]), and for the empty
    string, which the falsiness guard sends the same way,
    [getEmbeddableImageUrl] returns the fixed path ['/placeholder.jpg'],
    whatever API base is configured. *)
Theorem absent_input_placeholder (env : ImportMetaEnv) :
  getEmbeddableImageUrl env Null = "/placeholder.jpg"%string /\
  getEmbeddableImageUrl env Undefined = "/placeholder.jpg"%string /\
  getEmbeddableImageUrl env (Str EmptyString) = "/placeholder.jpg"%string.
Proof. by repeat split. Qed.

(** C6, as stated, fails on the empty string: it names neither host, yet
    what comes back is the placeholder path, not the input. *)
Lemma empty_string_not_unchanged :
  includes EmptyString "google.com" = false /\
  includes EmptyString "googleusercontent.com" = false /\
  getEmbeddableImageUrl {| VITE_API_URL := None |} (Str EmptyString)
    <> EmptyString.
Proof. by repeat split. Qed.

(** C6, amended.  For every string that contains neither ['google.com'] nor
    ['googleusercontent.com']: if it is non-empty, [getEmbeddableImageUrl]
    returns it unchanged; and, empty or not, normalizing the result again
    changes nothing. *)
Theorem non_google_unchanged (env : ImportMetaEnv) (url : string) :
  includes url "google.com" = false ->
  includes url "googleusercontent.com" = false ->
  (url <> EmptyString -> getEmbeddableImageUrl env (Str url) = url) /\
  getEmbeddableImageUrl env (Str (getEmbeddableImageUrl env (Str url))) =
    getEmbeddableImageUrl env (Str url).
Proof.
  intros H1 H2.
  assert (Hsame : url <> EmptyString -> getEmbeddableImageUrl env (Str url) = url).
  { intros Hne. apply truthy_nonempty in Hne. simpl. rewrite Hne. simpl.
    by apply no_host_unchanged. }
  split; [done |].
  destruct url as [|c url]; [done |].
  by rewrite !Hsame.
Qed.

Lemma non_google_unchanged_witness :
  getEmbeddableImageUrl {| VITE_API_URL := None |}
    (Str "https://cdn.example.com/shirts/blue.jpg") =
    "https://cdn.example.com/shirts/blue.jpg"%string.
Proof.
  by apply (non_google_unchanged {| VITE_API_URL := None |}
              "https://cdn.example.com/shirts/blue.jpg").
Defined.

(** C4, as stated, fails behind a pass-through prefix.  This input is on a
    [google.com] host and matches three of the patterns, the earliest being
    ['/file/d/'] with the capture ['AAA'], and a later one capturing ['BBB'];
    yet no identifier is extracted from it at all: it starts with
    ['http://localhost'] and comes back as it is. *)
Lemma guarded_link_extracts_nothing :
  includes "http://localhost.google.com/file/d/AAA/view?id=BBB" "google.com" = true /\
  exec file_re "http://localhost.google.com/file/d/AAA/view?id=BBB" =
    Some "AAA"%string /\
  exec id_re "http://localhost.google.com/file/d/AAA/view?id=BBB" =
    Some "BBB"%string /\
  first_match priority "http://localhost.google.com/file/d/AAA/view?id=BBB" =
    Some "AAA"%string /\
  extracted_id "http://localhost.google.com/file/d/AAA/view?id=BBB" = None /\
  getEmbeddableImageUrl {| VITE_API_URL := None |}
    (Str "http://localhost.google.com/file/d/AAA/view?id=BBB") =
    "http://localhost.google.com/file/d/AAA/view?id=BBB"%string.
Proof. by repeat split. Qed.

(** C4, amended.  The guarded assignments compute, on every string, the
    first match of the ordered list content-host ['/d/'], ['/file/d/'],
    ['open?id='], ['?id='/'&id='], generic ['/d/']: once a pattern has
    matched with every earlier one failing, its capture, which is never
    empty, is the value of [fileId].  The later patterns are still matched
    against the input, but
    what they capture has no influence: the value is the same whatever the
    later results are.  On every input that reaches the extraction
    (non-empty, not starting with ['data:'], ['/'] or ['http://localhost'],
    and naming a Google host) that capture is the identifier extracted, and
    the result is ['<apiBase>/api/images/drive/<capture>']. *)
Theorem priority_first_match_wins (env : ImportMetaEnv) (url : string) :
  fileId_of url = fileId_from (map (fun p => exec p url) priority) /\
  fileId_of url = default EmptyString (first_match priority url) /\
  (forall (ps1 ps2 : list pattern) (p : pattern) (g : string),
     priority = ps1 ++ p :: ps2 ->
     Forall (fun q => exec q url = None) ps1 ->
     exec p url = Some g ->
     fileId_of url = g) /\
  (forall (p : pattern) (g : string), exec p url = Some g -> g <> EmptyString) /\
  (forall (earlier later : list (option string)) (g : string),
     Forall (fun m => m = None) earlier ->
     g <> EmptyString ->
     fileId_from (earlier ++ Some g :: later) = g) /\
  (reaches_extraction url = true ->
   forall (ps1 ps2 : list pattern) (p : pattern) (g : string),
     priority = ps1 ++ p :: ps2 ->
     Forall (fun q => exec q url = None) ps1 ->
     exec p url = Some g ->
     extracted_id url = Some g /\
     getEmbeddableImageUrl env (Str url) =
       (apiUrl env +:+ "/api/images/drive/" +:+ g)%string).
Proof.
  split; [reflexivity |].
  split; [apply fileId_of_first_match |].
  split; [| split; [| split]].
  - intros ps1 ps2 p g Hsplit Hnone Hp.
    rewrite fileId_of_first_match, Hsplit.
    by rewrite (first_match_here _ _ _ _ _ Hnone Hp).
  - intros p g Hp. apply truthy_nonempty. by apply exec_capture in Hp as [Hp _].
  - intros earlier later g Hnone Hg. by apply fileId_from_first.
  - intros Hreach ps1 ps2 p g Hsplit Hnone Hp.
    destruct (earliest_match_result env url ps1 ps2 p g Hreach Hsplit Hnone Hp)
      as [Hid Hres].
    split; [| done].
    unfold extracted_id. rewrite Hreach, Hid.
    by apply exec_capture in Hp as [-> _].
Qed.

Lemma priority_first_match_wins_witness :
  exec id_re "https://drive.google.com/open?id=OPEN_1&alt=/d/SEG-2" = Some "OPEN_1"%string /\
  exec d_re "https://drive.google.com/open?id=OPEN_1&alt=/d/SEG-2" = Some "SEG-2"%string /\
  getEmbeddableImageUrl {| VITE_API_URL := Some "https://api.shop.test"%string |}
    (Str "https://drive.google.com/open?id=OPEN_1&alt=/d/SEG-2") =
    "https://api.shop.test/api/images/drive/OPEN_1"%string.
Proof.
  split; [done | split; [done |]].
  refine (proj2 (proj2 (proj2 (proj2 (proj2 (proj2 (priority_first_match_wins
            {| VITE_API_URL := Some "https://api.shop.test"%string |}
            "https://drive.google.com/open?id=OPEN_1&alt=/d/SEG-2")))))
          _ [lh3_re; file_re] [id_re; d_re] open_re "OPEN_1"%string _ _ _)).
  - reflexivity.
  - reflexivity.
  - repeat constructor.
  - reflexivity.
Defined.

(** C1, as stated, fails when the link sits behind one of the pass-through
    prefixes: this URL is on a [google.com] host, carries a ['/file/d/<id>']
    segment and has no content-host form, yet it starts with
    ['http://localhost'] and is returned as it is. *)
Lemma localhost_prefix_passes_through :
  first_segment "/file/d/"
    "http://localhost.google.com/file/d/ABC123xyz/view"
    "http://localhost.google.com" "ABC123xyz" "/view" /\
  includes "http://localhost.google.com/file/d/ABC123xyz/view" "google.com" = true /\
  exec lh3_re "http://localhost.google.com/file/d/ABC123xyz/view" = None /\
  getEmbeddableImageUrl {| VITE_API_URL := Some "http://localhost:8000"%string |}
    (Str "http://localhost.google.com/file/d/ABC123xyz/view") <>
    "http://localhost:8000/api/images/drive/ABC123xyz"%string.
Proof.
  split; [by apply first_segment_check |]. by repeat split.
Qed.

(** C1, amended.  For every input that reaches the extraction (non-empty,
    not starting with ['data:'], ['/'] or ['http://localhost'], and naming a
    Google host), that has no content-host ['googleusercontent.com/d/<id>']
    match, and whose first ['/file/d/<id>'] segment carries the identifier
    [id], [getEmbeddableImageUrl] returns ['<apiBase>/api/images/drive/<id>'].
    The scenario of the specification is the witness below. *)
Theorem file_link_resolves (env : ImportMetaEnv) (url pre id rest : string) :
  first_segment "/file/d/" url pre id rest ->
  reaches_extraction url = true ->
  exec lh3_re url = None ->
  getEmbeddableImageUrl env (Str url) =
    (apiUrl env +:+ "/api/images/drive/" +:+ id)%string.
Proof.
  intros Hseg Hreach Hlh3.
  apply first_segment_exec in Hseg.
  apply (earliest_match_result env url [lh3_re] [open_re; id_re; d_re] file_re);
    [done | done | by repeat constructor | done].
Qed.

Lemma file_link_resolves_witness :
  getEmbeddableImageUrl {| VITE_API_URL := Some "http://localhost:8000"%string |}
    (Str "https://drive.google.com/file/d/ABC123xyz/view") =
    "http://localhost:8000/api/images/drive/ABC123xyz"%string.
Proof.
  apply (file_link_resolves
           {| VITE_API_URL := Some "http://localhost:8000"%string |}
           "https://drive.google.com/file/d/ABC123xyz/view"
           "https://drive.google.com" "ABC123xyz" "/view").
  - apply first_segment_check. reflexivity.
  - reflexivity.
  - reflexivity.
Defined.

End DisplayClaims.

(** ** The store-time normalizer, and the two together *)

Section StoredReferences.
Import JsString Regex Utils.

Lemma all_id_append (a b : string) :
  all_id (a +:+ b) = all_id a && all_id b.
Proof.
  induction a as [|c a IH]; simpl; [done |]. by rewrite IH, andb_assoc.
Qed.

Lemma drop_drop (n m : nat) (s : string) : drop m (drop n s) = drop (n + m) s.
Proof.
  revert s; induction n as [|n IH]; intros s; simpl; [done |].
  destruct s as [|c s]; [by destruct m | apply IH].
Qed.

(** A string of identifier characters names no host. *)
Lemma all_id_no_host (s : string) :
  all_id s = true ->
  includes s "google.com" = false /\ includes s "googleusercontent.com" = false.
Proof.
  intros Hall.
  split; apply not_true_is_false; intros (pre & post & E)%includes_split;
    rewrite E, !all_id_append in Hall;
    apply andb_true_iff in Hall as [_ Hall];
    apply andb_true_iff in Hall as [Hall _]; discriminate Hall.
Qed.

(** The content-host form, seen by the display normalizer's first pattern. *)
Lemma lh3_link_exec (id rest : string) :
  truthy id = true -> all_id id = true -> id_stops rest = true ->
  exec lh3_re ("https://lh3.googleusercontent.com/d/" +:+ id +:+ rest) = Some id.
Proof.
  intros Hid Hall Hstop.
  change ("https://lh3.googleusercontent.com/d/" +:+ id +:+ rest)%string
    with ("https://lh3." +:+ "googleusercontent.com/d/" +:+ id +:+ rest)%string.
  rewrite exec_skip.
  - by apply exec_here, match_here_intro.
  - intros n Hn. simpl in Hn.
    do 12 (destruct n as [|n]; [reflexivity |]). lia.
Qed.

Lemma lh3_link_display (env : ImportMetaEnv) (id rest : string) :
  truthy id = true -> all_id id = true -> id_stops rest = true ->
  getEmbeddableImageUrl env
    (Str ("https://lh3.googleusercontent.com/d/" +:+ id +:+ rest)) =
    (apiUrl env +:+ "/api/images/drive/" +:+ id)%string.
Proof.
  intros Hid Hall Hstop.
  apply (earliest_match_result env _ [] [file_re; open_re; id_re; d_re] lh3_re).
  - unfold reaches_extraction.
    change ("https://lh3.googleusercontent.com/d/" +:+ id +:+ rest)%string
      with ("https://lh3." +:+ "googleusercontent.com" +:+ "/d/" +:+ id +:+ rest)%string
      at 6.
    rewrite includes_append, orb_true_r. reflexivity.
  - done.
  - constructor.
  - by apply lh3_link_exec.
Qed.

Lemma lh3_link_admin (input : string) :
  includes input "lh3.googleusercontent.com" = true ->
  AdminProducts.extractDriveUrl input = input.
Proof.
  intros H. unfold AdminProducts.extractDriveUrl. rewrite H.
  by destruct input.
Qed.

(** The third pattern of [extractDriveUrl] never decides: whatever it
    matches, the second has matched already. *)
Lemma uc_implies_query (input g : string) :
  exec AdminProducts.uc_re input = Some g ->
  exists g', exec AdminProducts.open_re input = Some g'.
Proof.
  intros (n & _ & Hh & _)%exec_elim.
  apply match_here_elim in Hh as (l & rest & Hd & Hl & Hg & Hall & Hstop).
  apply match_atoms_lit in Hl as ->.
  apply (exec_found _ (n + 14) _ g).
  rewrite <- drop_drop, Hd.
  change (drop 14 ("uc?export=view&id=" +:+ g +:+ rest)%string)
    with ("&id=" +:+ g +:+ rest)%string.
  by apply match_here_intro.
Qed.

(** What [extractDriveUrl] settles on, pattern by pattern. *)
Lemma admin_fileId_cases (input : string) :
  AdminProducts.fileId_of input =
  match exec file_re input with
  | Some g => g
  | None =>
      match exec id_re input with
      | Some g => g
      | None => if test_bare_id 20 input then input else EmptyString
      end
  end.
Proof.
  unfold AdminProducts.fileId_of.
  change AdminProducts.file_re with file_re.
  change AdminProducts.open_re with id_re.
  destruct (exec file_re input) as [g|] eqn:Ef.
  - apply exec_capture in Ef as [Ef _].
    rewrite !(assign_if_unset_keep g) by done. by rewrite Ef.
  - destruct (exec id_re input) as [g|] eqn:Eq.
    + apply exec_capture in Eq as [Eq _]. simpl.
      rewrite (assign_if_unset_keep g) by done. by rewrite Eq.
    + simpl. destruct (exec AdminProducts.uc_re input) as [g|] eqn:Eu; [| done].
      apply uc_implies_query in Eu as [g' Eu].
      change AdminProducts.open_re with id_re in Eu. congruence.
Qed.

Lemma derived_id_capture (input id : string) :
  AdminProducts.derived_id input = Some id ->
  truthy id = true /\ all_id id = true.
Proof.
  unfold AdminProducts.derived_id.
  destruct (truthy input); simpl; [| done].
  destruct (includes input _); [done |].
  rewrite admin_fileId_cases.
  destruct (exec file_re input) as [g|] eqn:Ef.
  { apply exec_capture in Ef as [Hg Hall]. rewrite Hg. by intros [= <-]. }
  destruct (exec id_re input) as [g|] eqn:Eq.
  { apply exec_capture in Eq as [Hg Hall]. rewrite Hg. by intros [= <-]. }
  destruct (test_bare_id 20 input) eqn:Eb; [| done].
  destruct (truthy input) eqn:Et; [| done]. intros [= <-].
  unfold test_bare_id in Eb. by apply andb_true_iff in Eb as [-> _].
Qed.

(** [extracted_id] and [derived_id] read off what the two functions do. *)
Lemma extracted_id_result (env : ImportMetaEnv) (url id : string) :
  extracted_id url = Some id ->
  getEmbeddableImageUrl env (Str url) =
    (apiUrl env +:+ "/api/images/drive/" +:+ id)%string.
Proof.
  unfold extracted_id.
  destruct (reaches_extraction url) eqn:Hreach; [| done].
  rewrite (reaches_extraction_result _ _ Hreach).
  destruct (truthy (fileId_of url)); [by intros [= ->] | done].
Qed.

Lemma derived_id_result (input : string) :
  AdminProducts.extractDriveUrl input =
  match AdminProducts.derived_id input with
  | Some id => ("https://lh3.googleusercontent.com/d/" +:+ id)%string
  | None => input
  end.
Proof.
  unfold AdminProducts.derived_id, AdminProducts.extractDriveUrl.
  destruct input as [|c input]; [done |]. simpl negb. cbn iota.
  destruct (includes _ _); [done |].
  by destruct (truthy (AdminProducts.fileId_of _)).
Qed.

End StoredReferences.

Section StoredReferenceClaims.
Import JsString Regex Utils.

(** C2, as stated, fails for the display-time normalizer: it rewrites a
    content-host link into the proxy form instead of returning it. *)
Lemma content_host_link_is_proxied :
  getEmbeddableImageUrl {| VITE_API_URL := None |}
    (Str "https://lh3.googleusercontent.com/d/ABC123xyz") <>
    "https://lh3.googleusercontent.com/d/ABC123xyz"%string.
Proof. done. Qed.

(** C2, amended.  For every content-host link
    ['https://lh3.googleusercontent.com/d/<id>'] (with whatever follows the
    identifier), the store-time normalizer [extractDriveUrl] returns the
    input unchanged, and the display-time normalizer
    [getEmbeddableImageUrl] returns ['<apiBase>/api/images/drive/<id>']. *)
Theorem content_host_link_forms (env : ImportMetaEnv) (id rest : string) :
  truthy id = true -> all_id id = true -> id_stops rest = true ->
  AdminProducts.extractDriveUrl
    ("https://lh3.googleusercontent.com/d/" +:+ id +:+ rest) =
    ("https://lh3.googleusercontent.com/d/" +:+ id +:+ rest)%string /\
  getEmbeddableImageUrl env
    (Str ("https://lh3.googleusercontent.com/d/" +:+ id +:+ rest)) =
    (apiUrl env +:+ "/api/images/drive/" +:+ id)%string.
Proof.
  intros Hid Hall Hstop. split; [| by apply lh3_link_display].
  apply lh3_link_admin.
  change ("https://lh3.googleusercontent.com/d/" +:+ id +:+ rest)%string
    with ("https://" +:+ "lh3.googleusercontent.com" +:+ "/d/" +:+ id +:+ rest)%string.
  apply includes_append.
Qed.

Lemma content_host_link_forms_witness :
  AdminProducts.extractDriveUrl "https://lh3.googleusercontent.com/d/ABC123xyz=w800" =
    "https://lh3.googleusercontent.com/d/ABC123xyz=w800"%string /\
  getEmbeddableImageUrl {| VITE_API_URL := Some "https://api.shop.test"%string |}
    (Str "https://lh3.googleusercontent.com/d/ABC123xyz=w800") =
    "https://api.shop.test/api/images/drive/ABC123xyz"%string.
Proof.
  by apply (content_host_link_forms
              {| VITE_API_URL := Some "https://api.shop.test"%string |}
              "ABC123xyz" "=w800").
Defined.

(** C3, as stated, fails in both directions.  A pasted bare identifier is
    accepted by [extractDriveUrl] and left alone by [getEmbeddableImageUrl];
    a generic ['/d/<id>'] link is resolved by [getEmbeddableImageUrl] and
    not parsed by [extractDriveUrl]; and one link can yield two different
    identifiers. *)
Lemma normalizers_disagree :
  (AdminProducts.derived_id "1ms1u6tuw22Bsl1SsGpR1zXtkR_zsgddx" =
     Some "1ms1u6tuw22Bsl1SsGpR1zXtkR_zsgddx"%string /\
   extracted_id "1ms1u6tuw22Bsl1SsGpR1zXtkR_zsgddx" = None /\
   getEmbeddableImageUrl {| VITE_API_URL := None |}
     (Str "1ms1u6tuw22Bsl1SsGpR1zXtkR_zsgddx") =
     "1ms1u6tuw22Bsl1SsGpR1zXtkR_zsgddx"%string) /\
  (extracted_id "https://drive.google.com/d/ABC123xyz" = Some "ABC123xyz"%string /\
   AdminProducts.derived_id "https://drive.google.com/d/ABC123xyz" = None /\
   AdminProducts.extractDriveUrl "https://drive.google.com/d/ABC123xyz" =
     "https://drive.google.com/d/ABC123xyz"%string) /\
  (AdminProducts.derived_id "https://drive.google.com/uc?id=AAA&next=open?id=BBB" =
     Some "AAA"%string /\
   extracted_id "https://drive.google.com/uc?id=AAA&next=open?id=BBB" =
     Some "BBB"%string).
Proof. by repeat split. Qed.

(** C3, amended.  Whenever [extractDriveUrl] derives an identifier [id], what
    it stores is ['https://lh3.googleusercontent.com/d/<id>'], and
    [getEmbeddableImageUrl] resolves that stored reference to
    ['<apiBase>/api/images/drive/<id>'].  On the original input the two
    agree under these conditions: the input reaches the display
    normalizer's extraction, has no content-host form, and its ['open?id=']
    match, if it decides, is its ['?id='/'&id='] match; then
    [extractDriveUrl] derives [id] exactly when [getEmbeddableImageUrl]
    extracts [id] and the ['/file/d/'] or the query pattern matches. *)
Theorem stored_reference_resolves (env : ImportMetaEnv) (input id : string) :
  (AdminProducts.derived_id input = Some id ->
   AdminProducts.extractDriveUrl input =
     ("https://lh3.googleusercontent.com/d/" +:+ id)%string /\
   getEmbeddableImageUrl env (Str (AdminProducts.extractDriveUrl input)) =
     (apiUrl env +:+ "/api/images/drive/" +:+ id)%string) /\
  (reaches_extraction input = true ->
   includes input "lh3.googleusercontent.com" = false ->
   exec lh3_re input = None ->
   AdminProducts.query_forms_agree input = true ->
   (AdminProducts.derived_id input = Some id <->
    extracted_id input = Some id /\
    (is_Some (exec file_re input) \/ is_Some (exec id_re input)))).
Proof.
  split.
  - intros Hd.
    destruct (derived_id_capture _ _ Hd) as [Hid Hall].
    assert (Hstored : AdminProducts.extractDriveUrl input =
              ("https://lh3.googleusercontent.com/d/" +:+ id)%string).
    { revert Hd. unfold AdminProducts.derived_id, AdminProducts.extractDriveUrl.
      destruct (negb (truthy input)); [done |].
      destruct (includes input _); [done |].
      destruct (truthy (AdminProducts.fileId_of input)); [| done].
      by intros [= ->]. }
    split; [done |]. rewrite Hstored.
    rewrite <- (append_nil_r id) at 1.
    by apply lh3_link_display.
  - intros Hreach Hlh3 Hre Hagree.
    unfold AdminProducts.derived_id, extracted_id.
    rewrite Hreach, Hlh3, admin_fileId_cases, fileId_of_first_match.
    assert (Hne : truthy input = true).
    { unfold reaches_extraction in Hreach. by destruct (truthy input). }
    rewrite Hne. simpl first_match. rewrite Hre. cbn [negb].
    unfold AdminProducts.query_forms_agree in Hagree.
    destruct (exec file_re input) as [g|] eqn:Ef.
    { apply exec_capture in Ef as [Hg _]. simpl. rewrite Hg.
      split; [intros [= <-]; eauto | by intros [[= <-] _]]. }
    destruct (exec open_re input) as [b|] eqn:Eo.
    { apply bool_decide_eq_true_1 in Hagree. rewrite Hagree.
      apply exec_capture in Eo as [Hb _]. simpl. rewrite Hb.
      split; [intros [= <-]; eauto | by intros [[= <-] _]]. }
    destruct (exec id_re input) as [a|] eqn:Eq.
    { apply exec_capture in Eq as [Ha _]. simpl. rewrite Ha.
      split; [intros [= <-]; eauto | by intros [[= <-] _]]. }
    split.
    + destruct (test_bare_id 20 input) eqn:Eb; [| done].
      exfalso. unfold test_bare_id in Eb.
      apply andb_true_iff in Eb as [Hall _].
      destruct (all_id_no_host _ Hall) as [H1 H2].
      unfold reaches_extraction in Hreach. rewrite H1, H2 in Hreach.
      by rewrite andb_false_r in Hreach.
    + intros [_ [[? [=]] | [? [=]]]].
Qed.

Lemma stored_reference_resolves_witness :
  getEmbeddableImageUrl {| VITE_API_URL := None |}
    (Str (AdminProducts.extractDriveUrl "https://drive.google.com/open?id=ABC123xyz")) =
    "http://localhost:8000/api/images/drive/ABC123xyz"%string /\
  extracted_id "https://drive.google.com/open?id=ABC123xyz" = Some "ABC123xyz"%string.
Proof.
  pose proof (stored_reference_resolves {| VITE_API_URL := None |}
                "https://drive.google.com/open?id=ABC123xyz" "ABC123xyz")
    as [Hstored Hagree].
  split.
  - apply Hstored. reflexivity.
  - apply (proj1 (Hagree eq_refl eq_refl eq_refl eq_refl) eq_refl).
Defined.

End StoredReferenceClaims.

(** ** Requests and the session *)

Section SessionClaims.
Import Js Api Session AuthService AuthStore.

Lemma signIn_catch_result (e : exn) (w : World) :
  exists msg,
    fst (signIn_catch e w) = {| user := VNull; token := VNull; error := Some msg |} /\
    sessionStorage (snd (signIn_catch e w)) = sessionStorage w /\
    store (snd (signIn_catch e w)) = store w.
Proof. destruct e; simpl; eauto. Qed.

(** C10, as stated, fails on a body that is not JSON: the message is the
    fixed text ['Request failed'], and the status code appears nowhere in
    it. *)
Lemma unparsable_body_hides_status :
  apiRequest (Sample.answering 500 (inl (JsError "SyntaxError" "Unexpected token <")))
    ∅ "/api/products" no_options =
    Throw (JsError "Error" "Request failed") /\
  JsString.includes "Request failed" (JsString.decimal 500) = false.
Proof. by split. Qed.

(** C10, amended.  Every response whose status is outside 200-299 makes
    [apiRequest] throw.  When the body parses to anything but [null], the
    error's message is its [detail] field converted to a string if that
    field is truthy (the field itself when it is a non-empty string of a
    JSON object), and otherwise ['HTTP error! status: <status>'].  A truthy
    [detail] that cannot be converted (an object, or an array holding one,
    with a [toString] property of its own) makes the conversion throw a
    [TypeError] in place of the error.  When the body is not parsable JSON,
    the message is the generic ['Request failed'], without the status code.
    A body that is the JSON [null] makes the read of [detail] itself throw. *)
Theorem error_response_message (rt : Runtime) (ss : Storage)
    (endpoint : string) (options : RequestInit) (r : Response) :
  fetch rt (build_request rt ss endpoint options) = inr r ->
  ok r = false ->
  (exists e, apiRequest rt ss endpoint options = Throw e) /\
  (forall props d,
     json r = inr (VObj props) -> lookup_prop "detail" props = VStr d ->
     d <> EmptyString ->
     apiRequest rt ss endpoint options = Throw (JsError "Error" d)) /\
  (forall v,
     json r = inr v -> v <> VNull -> v <> VUndefined ->
     apiRequest rt ss endpoint options =
       if truthy (read_prop_opt v "detail") then
         if printable (read_prop_opt v "detail")
         then Throw (JsError "Error" (to_string (read_prop_opt v "detail")))
         else Throw (JsError "TypeError" (convert_message rt))
       else
         Throw (JsError "Error"
           ("HTTP error! status: " +:+ JsString.decimal (status r))%string)) /\
  (forall e,
     json r = inl e ->
     apiRequest rt ss endpoint options = Throw (JsError "Error" "Request failed")) /\
  (json r = inr VNull ->
   apiRequest rt ss endpoint options =
     Throw (JsError "TypeError" (null_read_message rt "detail"))).
Proof.
  intros Hfetch Hok. unfold apiRequest. rewrite Hfetch, Hok.
  cbn [negb].
  split; [| split; [| split; [| split]]].
  - destruct (json r) as [e | v]; [by eexists |].
    destruct (read_prop (null_read_message rt) v "detail"); [| by eexists].
    destruct (ToString _ _); by eexists.
  - intros props d -> Hd Hne. cbn [read_prop]. rewrite Hd.
    unfold or_else, ToString. cbn [truthy printable to_string].
    by apply truthy_nonempty in Hne as ->.
  - intros v -> Hnull Hundef. unfold or_else, ToString.
    assert (Hread : read_prop (null_read_message rt) v "detail" =
                    Return (read_prop_opt v "detail")) by by destruct v.
    rewrite Hread.
    destruct (truthy (read_prop_opt v "detail")); [| done].
    by destruct (printable (read_prop_opt v "detail")).
  - by intros e ->.
  - by intros ->.
Qed.

Lemma error_response_message_witness :
  apiRequest
    (Sample.answering 401
       (inr (VObj [("detail"%string, VStr "Incorrect email or password")])))
    ∅ "/api/auth/login" no_options =
    Throw (JsError "Error" "Incorrect email or password") /\
  apiRequest (Sample.answering 404 (inr (VObj []))) ∅ "/api/products/9" no_options =
    Throw (JsError "Error" "HTTP error! status: 404").
Proof.
  split.
  - pose proof (error_response_message
        (Sample.answering 401
           (inr (VObj [("detail"%string, VStr "Incorrect email or password")])))
        ∅ "/api/auth/login" no_options
        {| status := 401;
           json := inr (VObj [("detail"%string, VStr "Incorrect email or password")]) |}
        eq_refl eq_refl) as (_ & Hdetail & _).
    apply (Hdetail _ _ eq_refl eq_refl). discriminate.
  - pose proof (error_response_message
        (Sample.answering 404 (inr (VObj []))) ∅ "/api/products/9" no_options
        {| status := 404; json := inr (VObj []) |}
        eq_refl eq_refl) as (_ & _ & Hstatus & _).
    apply (Hstatus _ eq_refl); discriminate.
Defined.

(** C7.  When the exchange with the server fails ([apiRequest] throws:
    the request is rejected, the status is an error, or the body cannot be
    read), [signInAdmin] returns an error message with [null] user and
    [null] token, and [sessionStorage] and the auth store are what they were
    before the call.  More generally, any result that carries an error leaves
    both untouched, and [sessionStorage] changes only when the exchange
    succeeded and no error is reported. *)
Theorem failed_sign_in_stores_nothing (rt : Runtime) (email password : string)
    (w : World) :
  (forall e,
     apiRequest rt (sessionStorage w) "/api/auth/login"
       (login_options rt email password) = Throw e ->
     exists msg,
       fst (signInAdmin rt email password w) =
         {| user := VNull; token := VNull; error := Some msg |} /\
       sessionStorage (snd (signInAdmin rt email password w)) = sessionStorage w /\
       store (snd (signInAdmin rt email password w)) = store w) /\
  (error (fst (signInAdmin rt email password w)) <> None ->
   user (fst (signInAdmin rt email password w)) = VNull /\
   token (fst (signInAdmin rt email password w)) = VNull /\
   sessionStorage (snd (signInAdmin rt email password w)) = sessionStorage w /\
   store (snd (signInAdmin rt email password w)) = store w) /\
  (sessionStorage (snd (signInAdmin rt email password w)) <> sessionStorage w ->
   error (fst (signInAdmin rt email password w)) = None /\
   exists response,
     apiRequest rt (sessionStorage w) "/api/auth/login"
       (login_options rt email password) = Return response).
Proof.
  unfold signInAdmin.
  destruct (apiRequest rt (sessionStorage w) "/api/auth/login"
              (login_options rt email password)) as [response | e0].
  - split; [done |].
    destruct (read_prop (null_read_message rt) response "access_token")
      as [access_token | e1].
    + destruct (storage_write rt "auth_token" access_token w) as [w' | e2].
      * split; [done |]. intros _. eauto.
      * destruct (signIn_catch_result e2 w) as (msg & Hres & Hss & Hst).
        rewrite Hres. split; [done |]. intros Hchanged. by destruct Hchanged.
    + destruct (signIn_catch_result e1 w) as (msg & Hres & Hss & Hst).
      rewrite Hres. split; [done |]. intros Hchanged. by destruct Hchanged.
  - destruct (signIn_catch_result e0 w) as (msg & Hres & Hss & Hst).
    split; [intros e _; eauto |].
    rewrite Hres. split; [done |]. intros Hchanged. by destruct Hchanged.
Qed.

Lemma failed_sign_in_stores_nothing_witness :
  fst (signInAdmin
         (Sample.answering 401
            (inr (VObj [("detail"%string, VStr "Incorrect email or password")])))
         "owner@shop.test" "wrong" Sample.fresh) =
    {| user := VNull; token := VNull;
       error := Some "Incorrect email or password"%string |} /\
  sessionStorage
    (snd (signInAdmin
            (Sample.answering 401
               (inr (VObj [("detail"%string, VStr "Incorrect email or password")])))
            "owner@shop.test" "wrong" Sample.fresh)) = ∅.
Proof.
  destruct (proj1 (failed_sign_in_stores_nothing
              (Sample.answering 401
                 (inr (VObj [("detail"%string, VStr "Incorrect email or password")])))
              "owner@shop.test" "wrong" Sample.fresh)
              (JsError "Error" "Incorrect email or password") eq_refl)
    as (msg & Hres & Hss & _).
  split; [reflexivity | exact Hss].
Defined.

(** C9.  When a token is stored and its verification fails ([apiRequest]
    throws), [verifyToken] answers [valid = false], [user = null], and the
    token is still in [sessionStorage]: storage, store and console are
    exactly what they were. *)
Theorem failed_verification_keeps_token (rt : Runtime) (w : World)
    (tok : string) (e : exn) :
  getItem "auth_token" w = Some tok ->
  apiRequest rt (sessionStorage w) "/api/auth/me" no_options = Throw e ->
  verifyToken rt w = ({| valid := false; verified_user := VNull |}, w) /\
  getItem "auth_token" (snd (verifyToken rt w)) = Some tok.
Proof.
  intros Htok Hfail.
  assert (H : verifyToken rt w = ({| valid := false; verified_user := VNull |}, w)).
  { unfold verifyToken. rewrite Htok, Hfail. by destruct (negb _). }
  by rewrite H.
Qed.

Lemma failed_verification_keeps_token_witness :
  verifyToken
    (Sample.answering 401 (inr (VObj [("detail"%string, VStr "Token expired")])))
    Sample.signed_in =
    ({| valid := false; verified_user := VNull |}, Sample.signed_in) /\
  getItem "auth_token"
    (snd (verifyToken
            (Sample.answering 401 (inr (VObj [("detail"%string, VStr "Token expired")])))
            Sample.signed_in)) = Some "tok-123"%string.
Proof.
  apply (failed_verification_keeps_token _ Sample.signed_in "tok-123"
           (JsError "Error" "Token expired")); reflexivity.
Defined.


End SessionClaims.


(** * Further properties *)

(** ** More on the two normalizers *)

Section NormalizerExtras.
Import JsString Regex Utils.

Lemma truthy_append_l (a b : string) : truthy a = true -> truthy (a +:+ b) = true.
Proof. by destruct a. Qed.

Lemma truthy_apiUrl (env : ImportMetaEnv) : truthy (apiUrl env) = true.
Proof.
  unfold apiUrl. destruct (VITE_API_URL env) as [s|]; [| done].
  by destruct (truthy s) eqn:E.
Qed.

(** What [getEmbeddableImageUrl] returns is one of four things. *)
Lemma embeddable_cases (env : ImportMetaEnv) (url : url_arg) :
  getEmbeddableImageUrl env url = "/placeholder.jpg"%string \/
  (exists s, url = Str s /\ truthy s = true /\ getEmbeddableImageUrl env url = s) \/
  (exists t, getEmbeddableImageUrl env url = (apiUrl env +:+ t)%string).
Proof.
  destruct url as [| | s]; simpl; [by left | by left |].
  destruct (truthy s) eqn:Hs; simpl; [| by left].
  unfold embeddable_of_string.
  repeat match goal with
         | |- context [if ?b then s else _] => destruct b; [right; left; by exists s |]
         end.
  right; right. destruct (truthy (fileId_of s)); eauto.
Qed.

Lemma embeddable_value_nonempty (env : ImportMetaEnv) (url : url_arg) :
  getEmbeddableImageUrl env url <> EmptyString.
Proof.
  apply truthy_nonempty.
  destruct (embeddable_cases env url) as [-> | [(s & _ & Hs & ->) | (t & ->)]];
    [done | done |].
  apply truthy_append_l, truthy_apiUrl.
Qed.

(** The function with its exception, against the value it returns: it
    throws on a string that reaches the last line without an identifier and
    holds a lone surrogate, and nowhere else. *)
Lemma throwing_embeddable (malformed : string) (env : ImportMetaEnv) (url : url_arg) :
  Throwing.getEmbeddableImageUrl malformed env url =
    if match url with
       | Str s => reaches_extraction s && negb (truthy (fileId_of s)) &&
                  negb (well_formed s)
       | _ => false
       end
    then Js.Throw (Js.JsError "URIError" malformed)
    else Js.Return (getEmbeddableImageUrl env url).
Proof.
  destruct url as [| | s]; [done | done |].
  unfold Throwing.getEmbeddableImageUrl, getEmbeddableImageUrl,
    embeddable_of_string, reaches_extraction, Throwing.encodeURIComponent.
  destruct (truthy s); [| done]. cbn [negb andb].
  destruct (startsWith s "data:"); [done |].
  destruct (startsWith s "/"); [done |].
  destruct (startsWith s "http://localhost"); [done |]. cbn [negb andb].
  destruct (includes s "google.com"), (includes s "googleusercontent.com");
    cbn [negb andb orb]; try done;
    destruct (truthy (fileId_of s)); try done;
    by destruct (well_formed s).
Qed.

(** X1.  [getEmbeddableImageUrl] never returns the empty string: whatever
    the input ([null], [undefined] or a string) and the configured API base,
    what it returns is non-empty.  It returns on every input but one kind: a
    string that reaches the generic proxy branch (it passes the checks before
    the extraction and no identifier is found) and holds a lone surrogate,
    on which [encodeURIComponent] throws [URIError]. *)
Theorem embeddable_never_empty (malformed : string) (env : ImportMetaEnv)
    (url : url_arg) :
  (forall r,
     Throwing.getEmbeddableImageUrl malformed env url = Js.Return r ->
     r <> EmptyString /\ r = getEmbeddableImageUrl env url) /\
  (forall e,
     Throwing.getEmbeddableImageUrl malformed env url = Js.Throw e <->
     e = Js.JsError "URIError" malformed /\
     exists s,
       url = Str s /\ reaches_extraction s = true /\
       fileId_of s = EmptyString /\ well_formed s = false).
Proof.
  rewrite throwing_embeddable. split.
  - intros r. destruct (match url with Str _ => _ | _ => false end); [done |].
    intros [= <-]. split; [apply embeddable_value_nonempty | done].
  - intros e. destruct url as [| | s].
    + split; [done | by intros [_ (s & [=] & _)]].
    + split; [done | by intros [_ (s & [=] & _)]].
    + split.
      * destruct (reaches_extraction s) eqn:Hr; cbn [andb]; [| done].
        destruct (truthy (fileId_of s)) eqn:Hf; cbn [negb andb]; [done |].
        destruct (well_formed s) eqn:Hw; cbn [negb]; [done |].
        intros [= <-]. split; [done |]. exists s. repeat split; try done.
        by destruct (fileId_of s).
      * intros [-> (s' & [= <-] & Hr & Hf & Hw)]. by rewrite Hr, Hf, Hw.
Qed.

Lemma embeddable_never_empty_witness :
  Throwing.getEmbeddableImageUrl "URI malformed" {| VITE_API_URL := None |}
    (Str ("https://photos.google.com/" +:+
          String (ascii_of_N 237) (String (ascii_of_N 160)
            (String (ascii_of_N 128) EmptyString)))) =
    Js.Throw (Js.JsError "URIError" "URI malformed") /\
  "/placeholder.jpg"%string <> EmptyString.
Proof.
  split.
  - apply (proj2 (embeddable_never_empty "URI malformed" {| VITE_API_URL := None |}
                    (Str ("https://photos.google.com/" +:+
                          String (ascii_of_N 237) (String (ascii_of_N 160)
                            (String (ascii_of_N 128) EmptyString))))));
      split; [reflexivity |].
    eexists. repeat split; reflexivity.
  - apply (proj1 (embeddable_never_empty "URI malformed" {| VITE_API_URL := None |}
                    Null) "/placeholder.jpg"%string eq_refl).
Defined.

End NormalizerExtras.

Section NormalizerExtras2.
Import JsString Regex Utils Shapes.

Lemma startsWith_append_l (a t p : string) :
  startsWith a p = true -> startsWith (a +:+ t) p = true.
Proof.
  intros (r & ->)%startsWith_split. rewrite append_assoc. apply startsWith_append.
Qed.

Lemma passes_through_unchanged (env : ImportMetaEnv) (s : string) :
  passes_through s = true -> embeddable_of_string env s = s.
Proof.
  unfold passes_through, embeddable_of_string. intros H.
  destruct (startsWith s "data:"); [done |].
  destruct (startsWith s "/"); [done |].
  simpl in H. by rewrite H.
Qed.

Lemma passes_through_append (a t : string) :
  passes_through a = true -> passes_through (a +:+ t) = true.
Proof.
  unfold passes_through. intros H.
  apply orb_true_iff in H as [H | H]; [apply orb_true_iff in H as [H | H] |];
    rewrite (startsWith_append_l _ t _ H); by rewrite ?orb_true_r.
Qed.

(** X2.  When the configured API base itself starts with one of the
    pass-through prefixes (as the default ['http://localhost:8000'] does),
    normalizing an already normalized reference changes nothing. *)
Theorem embeddable_idempotent (env : ImportMetaEnv) (url : url_arg) :
  passes_through (apiUrl env) = true ->
  getEmbeddableImageUrl env (Str (getEmbeddableImageUrl env url)) =
    getEmbeddableImageUrl env url.
Proof.
  intros Hbase.
  destruct (embeddable_cases env url) as [-> | [(s & -> & Hs & Hres) | (t & ->)]].
  - done.
  - by rewrite !Hres.
  - simpl. rewrite (truthy_append_l _ _ (truthy_apiUrl env)). simpl.
    by apply passes_through_unchanged, passes_through_append.
Qed.

Lemma embeddable_idempotent_witness :
  getEmbeddableImageUrl {| VITE_API_URL := None |}
    (Str (getEmbeddableImageUrl {| VITE_API_URL := None |}
            (Str "https://photos.google.com/share/album 7"))) =
  getEmbeddableImageUrl {| VITE_API_URL := None |}
    (Str "https://photos.google.com/share/album 7").
Proof.
  apply (embeddable_idempotent {| VITE_API_URL := None |}). reflexivity.
Defined.

Lemma hex_digit_safe (n : N) : (n < 16)%N -> query_safe (hex_digit n) = true.
Proof.
  intros Hn. rewrite <- (N2Nat.id n).
  assert (Hk : N.to_nat n < 16) by lia.
  revert Hk. generalize (N.to_nat n). clear Hn. intros k Hk.
  do 16 (destruct k as [|k]; [reflexivity |]). lia.
Qed.

Lemma encode_query_safe (s : string) :
  every_char query_safe (encodeURIComponent s) = true.
Proof.
  induction s as [|c s IH]; [done |]. simpl.
  destruct (uri_unreserved c) eqn:Hc; simpl.
  - unfold query_safe at 1. by rewrite Hc.
  - rewrite IH, !andb_true_r.
    rewrite !hex_digit_safe; [done | |].
    + apply N.mod_lt. done.
    + apply N.Div0.div_lt_upper_bound. pose proof (N_ascii_bounded c). lia.
Qed.

End NormalizerExtras2.

Section NormalizerExtras3.
Import JsString Regex Utils Shapes.

Lemma hex_digit_code (n : N) :
  (n < 16)%N ->
  N_of_ascii (hex_digit n) = if (n <? 10)%N then (48 + n)%N else (55 + n)%N.
Proof.
  intros Hn. unfold hex_digit.
  destruct (n <? 10)%N; apply N_ascii_embedding; lia.
Qed.

Lemma hex_digit_inj (a b : N) :
  (a < 16)%N -> (b < 16)%N -> hex_digit a = hex_digit b -> a = b.
Proof.
  intros Ha Hb H. apply (f_equal N_of_ascii) in H.
  rewrite !hex_digit_code in H by done.
  destruct (N.ltb_spec a 10), (N.ltb_spec b 10); lia.
Qed.

Lemma encode_cons_inv (c1 c2 : ascii) (t1 t2 : string) :
  encodeURIComponent (String c1 t1) = encodeURIComponent (String c2 t2) ->
  c1 = c2 /\ encodeURIComponent t1 = encodeURIComponent t2.
Proof.
  simpl.
  destruct (uri_unreserved c1) eqn:H1, (uri_unreserved c2) eqn:H2.
  - by intros [= -> ->].
  - intros [= -> _]. discriminate H1.
  - intros [= <- _]. discriminate H2.
  - intros [= Hhi Hlo Ht]. split; [| done].
    pose proof (N_ascii_bounded c1). pose proof (N_ascii_bounded c2).
    apply hex_digit_inj in Hhi;
      [| apply N.Div0.div_lt_upper_bound; lia | apply N.Div0.div_lt_upper_bound; lia].
    apply hex_digit_inj in Hlo; [| by apply N.mod_lt | by apply N.mod_lt].
    rewrite <- (ascii_N_embedding c1), <- (ascii_N_embedding c2).
    f_equal.
    rewrite (N.div_mod (N_of_ascii c1) 16), (N.div_mod (N_of_ascii c2) 16) by done.
    by rewrite Hhi, Hlo.
Qed.

Lemma encode_inj (s1 s2 : string) :
  encodeURIComponent s1 = encodeURIComponent s2 -> s1 = s2.
Proof.
  revert s2; induction s1 as [|c1 s1 IH]; intros [|c2 s2] H.
  - done.
  - simpl in H. by destruct (uri_unreserved c2).
  - simpl in H. by destruct (uri_unreserved c1).
  - apply encode_cons_inv in H as [-> H]. f_equal. by apply IH.
Qed.

(** A literal pattern that ends in a text another pattern accepts cannot
    match without that other pattern matching too. *)
Lemma exec_lit_tail (w l : string) (p : pattern) (s g : string) :
  match_atoms p l = Some EmptyString ->
  exec (lit (w +:+ l)) s = Some g ->
  exists g', exec p s = Some g'.
Proof.
  intros Hp (n & _ & Hh & _)%exec_elim.
  apply match_here_elim in Hh as (l0 & rest & Hd & Hl & Hg & Hall & Hstop).
  apply match_atoms_lit in Hl as ->.
  apply (exec_found _ (n + String.length w) _ g).
  rewrite <- drop_drop, Hd, append_assoc, drop_append.
  by apply match_here_intro.
Qed.

(** An identifier comes out exactly when the query pattern or the generic
    path pattern matches: the other three patterns only refine these. *)
Lemma fileId_found_iff (url : string) :
  truthy (fileId_of url) = true <->
  is_Some (exec id_re url) \/ is_Some (exec d_re url).
Proof.
  rewrite fileId_of_first_match. unfold priority, first_match.
  destruct (exec lh3_re url) as [g|] eqn:E1.
  { destruct (exec_lit_tail "googleusercontent.com" "/d/" d_re url g eq_refl E1).
    apply exec_capture in E1 as [E1 _]. simpl. split; eauto. }
  destruct (exec file_re url) as [g|] eqn:E2.
  { destruct (exec_lit_tail "/file" "/d/" d_re url g eq_refl E2).
    apply exec_capture in E2 as [E2 _]. simpl. split; eauto. }
  destruct (exec open_re url) as [g|] eqn:E3.
  { destruct (exec_lit_tail "open" "?id=" id_re url g eq_refl E3).
    apply exec_capture in E3 as [E3 _]. simpl. split; eauto. }
  destruct (exec id_re url) as [g|] eqn:E4.
  { apply exec_capture in E4 as [E4 _]. simpl. split; eauto. }
  destruct (exec d_re url) as [g|] eqn:E5.
  { apply exec_capture in E5 as [E5 _]. simpl. split; eauto. }
  simpl. split; [done |]. by intros [[? [=]] | [? [=]]].
Qed.

(** X3.  On an input that reaches the extraction, the generic proxy branch
    is taken exactly when neither ['?id='/'&id='] nor ['/d/'] is followed by
    an identifier character; otherwise the result is the drive form for some
    identifier.  In the proxy branch a link without a lone surrogate comes
    back in the proxy form, travelling as one query-string value: what
    follows ['proxy?url='] consists of unreserved characters and percent
    escapes only.  A link with a lone surrogate makes [encodeURIComponent],
    and with it the function, throw [URIError]. *)
Theorem proxy_fallback_exactly (malformed : string) (env : ImportMetaEnv)
    (url : string) :
  reaches_extraction url = true ->
  (exec id_re url = None /\ exec d_re url = None ->
   (well_formed url = true ->
    Throwing.getEmbeddableImageUrl malformed env (Str url) =
      Js.Return
        (apiUrl env +:+ "/api/images/proxy?url=" +:+ encodeURIComponent url)%string /\
    every_char query_safe (encodeURIComponent url) = true) /\
   (well_formed url = false ->
    Throwing.getEmbeddableImageUrl malformed env (Str url) =
      Js.Throw (Js.JsError "URIError" malformed))) /\
  (is_Some (exec id_re url) \/ is_Some (exec d_re url) ->
   exists id,
     truthy id = true /\ all_id id = true /\
     Throwing.getEmbeddableImageUrl malformed env (Str url) =
       Js.Return (apiUrl env +:+ "/api/images/drive/" +:+ id)%string).
Proof.
  intros Hreach. rewrite throwing_embeddable, Hreach.
  rewrite (reaches_extraction_result _ _ Hreach). cbn [andb]. split.
  - intros [Hid Hd].
    assert (Hf : truthy (fileId_of url) = false).
    { destruct (truthy (fileId_of url)) eqn:Hf; [| done].
      apply fileId_found_iff in Hf as [[? Hf] | [? Hf]]; congruence. }
    rewrite Hf. cbn [negb andb]. split.
    + intros ->. split; [done | apply encode_query_safe].
    + by intros ->.
  - intros Hsome. pose proof (proj2 (fileId_found_iff url) Hsome) as Hf.
    rewrite Hf. cbn [negb andb]. exists (fileId_of url). repeat split; try done.
    rewrite fileId_of_first_match in *.
    destruct (first_match priority url) as [g|] eqn:Hfm; [| done].
    simpl. clear Hf. revert Hfm. unfold priority, first_match.
    repeat match goal with
           | |- context [exec ?p url] =>
               let E := fresh "E" in
               destruct (exec p url) eqn:E;
               [ intros [= <-]; by apply exec_capture in E as [_ E] |]
           end.
    done.
Qed.

Lemma proxy_fallback_exactly_witness :
  Throwing.getEmbeddableImageUrl "URI malformed"
    {| VITE_API_URL := Some "https://api.shop.test"%string |}
    (Str "https://photos.google.com/share/album 7?key=a&b") =
  Js.Return
    "https://api.shop.test/api/images/proxy?url=https%3A%2F%2Fphotos.google.com%2Fshare%2Falbum%207%3Fkey%3Da%26b"%string.
Proof.
  exact (proj1 (proj1 (proj1 (proxy_fallback_exactly "URI malformed"
           {| VITE_API_URL := Some "https://api.shop.test"%string |}
           "https://photos.google.com/share/album 7?key=a&b" eq_refl)
         (conj eq_refl eq_refl)) eq_refl)).
Defined.

(** X4.  Two links that both end in the generic proxy form get different
    proxy URLs unless they are the same link. *)
Theorem proxy_fallback_injective (env : ImportMetaEnv) (u1 u2 : string) :
  reaches_extraction u1 = true -> fileId_of u1 = EmptyString ->
  reaches_extraction u2 = true -> fileId_of u2 = EmptyString ->
  getEmbeddableImageUrl env (Str u1) = getEmbeddableImageUrl env (Str u2) ->
  u1 = u2.
Proof.
  intros R1 F1 R2 F2.
  rewrite (reaches_extraction_result _ _ R1), (reaches_extraction_result _ _ R2).
  rewrite F1, F2. simpl truthy. cbn iota.
  intros H. apply encode_inj.
  by do 2 apply String.app_inj in H.
Qed.

Lemma proxy_fallback_injective_witness :
  "https://photos.google.com/a b"%string = "https://photos.google.com/a b"%string.
Proof.
  apply (proxy_fallback_injective {| VITE_API_URL := None |}); reflexivity.
Defined.

End NormalizerExtras3.

Section AdminNormalizerExtras.
Import JsString Regex Utils Shapes.

(** X5.  [extractDriveUrl] returns either its input or the content-host
    link for a non-empty identifier of letters, digits, underscores and
    hyphens; the result is empty only for the empty input. *)
Theorem extractDriveUrl_shape (input : string) :
  (AdminProducts.extractDriveUrl input = input \/
   exists id,
     truthy id = true /\ all_id id = true /\
     AdminProducts.extractDriveUrl input =
       ("https://lh3.googleusercontent.com/d/" +:+ id)%string) /\
  (AdminProducts.extractDriveUrl input = EmptyString <-> input = EmptyString).
Proof.
  rewrite derived_id_result.
  destruct (AdminProducts.derived_id input) as [id|] eqn:Hd.
  - destruct (derived_id_capture _ _ Hd) as [Hid Hall].
    split; [right; by exists id |].
    split; [done |]. intros ->. discriminate Hd.
  - split; [by left | done].
Qed.

(** X6.  [extractDriveUrl] is idempotent, so the link field, which shows the
    converted value and converts again on the next edit, is stable. *)
Theorem extractDriveUrl_idempotent (input : string) :
  AdminProducts.extractDriveUrl (AdminProducts.extractDriveUrl input) =
    AdminProducts.extractDriveUrl input.
Proof.
  rewrite (derived_id_result input).
  destruct (AdminProducts.derived_id input) as [id|] eqn:Hd;
    [| by rewrite derived_id_result, Hd].
  apply lh3_link_admin.
  change ("https://lh3.googleusercontent.com/d/" +:+ id)%string
    with ("https://" +:+ "lh3.googleusercontent.com" +:+ "/d/" +:+ id)%string.
  apply includes_append.
Qed.

(** X7.  The third attempt of [extractDriveUrl], the pattern
    ['uc?export=view&id='], never decides anything: whenever it matches, the
    second pattern has matched already, and deleting it leaves the function
    the same on every input. *)
Theorem uc_attempt_is_dead (input : string) :
  (forall g, exec AdminProducts.uc_re input = Some g ->
             is_Some (exec AdminProducts.open_re input)) /\
  AdminProducts.fileId_of input = fileId_without_uc input.
Proof.
  assert (Hdead : forall g, exec AdminProducts.uc_re input = Some g ->
                            is_Some (exec AdminProducts.open_re input)).
  { intros g Hg.
    destruct (exec_lit_tail "uc?export=view" "&id=" AdminProducts.open_re input g
                eq_refl Hg) as [g' Hg'].
    by exists g'. }
  split; [done |].
  unfold AdminProducts.fileId_of, fileId_without_uc.
  destruct (exec AdminProducts.uc_re input) as [g|] eqn:Eu; [| done].
  destruct (Hdead g eq_refl) as [g' Ho]. rewrite Ho.
  destruct (exec_capture _ _ _ Ho) as [Hg' _].
  destruct (exec AdminProducts.file_re input) as [f|] eqn:Ef.
  - apply exec_capture in Ef as [Hf _]. simpl.
    repeat (rewrite ?Hf; simpl). done.
  - simpl. repeat (rewrite ?Hg'; simpl). done.
Qed.

End AdminNormalizerExtras.

(** ** More on requests *)

Section RequestExtras.
Import Js Api Session ApiForm Services.

Lemma getAuthHeader_lookup (ss : Storage) (k : string) :
  getAuthHeader ss !! k =
  match ss !! "auth_token"%string with
  | Some t =>
      if JsString.truthy t && bool_decide (k = "Authorization"%string)
      then Some ("Bearer " +:+ t)%string else None
  | None => None
  end.
Proof.
  unfold getAuthHeader.
  destruct (ss !! "auth_token"%string) as [t|]; [| apply lookup_empty].
  destruct (JsString.truthy t); simpl; [| apply lookup_empty].
  case_bool_decide as Hk.
  - subst k. apply lookup_singleton_eq.
  - apply lookup_singleton_ne. congruence.
Qed.

(** X8.  The headers of every request [apiRequest] sends: what the caller
    passes wins; otherwise [Authorization] is ['Bearer <token>'] when a
    non-empty token is stored and absent when none is, and [Content-Type]
    is ['application/json']. *)
Theorem request_headers (rt : Runtime) (ss : Storage) (endpoint : string)
    (options : RequestInit) :
  (forall k v,
     headers options !! k = Some v ->
     req_headers (build_request rt ss endpoint options) !! k = Some v) /\
  (headers options !! "Authorization"%string = None ->
   req_headers (build_request rt ss endpoint options) !! "Authorization"%string =
     match ss !! "auth_token"%string with
     | Some t => if JsString.truthy t then Some ("Bearer " +:+ t)%string else None
     | None => None
     end) /\
  (headers options !! "Content-Type"%string = None ->
   req_headers (build_request rt ss endpoint options) !! "Content-Type"%string =
     Some "application/json"%string).
Proof.
  unfold build_request. simpl. repeat split.
  - intros k v Hk. by apply lookup_union_Some_l.
  - intros Hnone. rewrite lookup_union_r by done.
    rewrite lookup_union, getAuthHeader_lookup.
    rewrite lookup_singleton_ne by done.
    destruct (ss !! "auth_token"%string) as [t|]; [| done].
    by destruct (JsString.truthy t).
  - intros Hnone. rewrite lookup_union_r by done.
    rewrite lookup_union_r; [apply lookup_singleton_eq |].
    rewrite getAuthHeader_lookup.
    destruct (ss !! "auth_token"%string) as [t|]; [| done].
    by rewrite andb_false_r.
Qed.

Lemma request_headers_witness :
  req_headers (build_request (Sample.answering 200 (inr VNull))
                 (sessionStorage Sample.signed_in) "/api/products" no_options)
    !! "Authorization"%string = Some "Bearer tok-123"%string.
Proof.
  exact (proj1 (proj2 (request_headers (Sample.answering 200 (inr VNull))
           (sessionStorage Sample.signed_in) "/api/products" no_options)) eq_refl).
Defined.

Lemma request_ok_true (rt : Runtime) (label endpoint : string)
    (options : RequestInit) (w : World) :
  fst (request_ok rt label endpoint options w) = true <->
  exists r v,
    fetch rt (build_request rt (sessionStorage w) endpoint options) = inr r /\
    ok r = true /\ json r = inr v.
Proof.
  unfold request_ok, apiRequest.
  destruct (fetch rt _) as [e | r]; simpl.
  { split; [done | by intros (? & ? & [=] & _)]. }
  destruct (ok r) eqn:Hok; simpl.
  - destruct (json r) as [e | v] eqn:Hj; simpl.
    + split; [done | intros (r' & v' & [= <-] & _ & Hj'); congruence].
    + split; [intros _; by exists r, v | done].
  - split; [| intros (r' & v' & [= <-] & Hok' & _); congruence].
    destruct (read_prop _ _ _); [| done].
    by destruct (ToString _ _).
Qed.

(** X9.  [deleteProduct], [deleteCategory] and [toggleProductEnabled] answer
    [true] exactly when the response has a status in 200-299 and a body that
    parses as JSON.  A success without a readable body (a bare 204, say) is
    reported as a failure. *)
Theorem write_reports_success_iff (rt : Runtime) (id : string) (enabled : bool)
    (w : World) :
  (fst (deleteProduct rt id w) = true <->
   exists r v,
     fetch rt (build_request rt (sessionStorage w) ("/api/products/" +:+ id)
                 (with_method "DELETE" None)) = inr r /\
     ok r = true /\ json r = inr v) /\
  (fst (deleteCategory rt id w) = true <->
   exists r v,
     fetch rt (build_request rt (sessionStorage w) ("/api/categories/" +:+ id)
                 (with_method "DELETE" None)) = inr r /\
     ok r = true /\ json r = inr v) /\
  (fst (toggleProductEnabled rt id enabled w) = true <->
   exists r v,
     fetch rt (build_request rt (sessionStorage w)
                 ("/api/products/" +:+ id +:+ "/toggle-enabled?enabled=" +:+
                  to_string (VBool enabled))
                 (with_method "PATCH" None)) = inr r /\
     ok r = true /\ json r = inr v).
Proof. repeat split; apply request_ok_true. Qed.

Lemma write_reports_success_iff_witness :
  fst (deleteProduct
         (Sample.answering 204 (inl (JsError "SyntaxError" "Unexpected end of JSON input")))
         "p1" Sample.signed_in) = false.
Proof.
  apply not_true_is_false. intros H.
  apply (proj1 (proj1 (write_reports_success_iff _ "p1" true Sample.signed_in))) in H
    as (r & v & [= <-] & _ & Hj).
  discriminate Hj.
Defined.

End RequestExtras.

(** ** More on the session *)

Section SessionExtras.
Import Js Api Session AuthService AuthStore Invariants.

Lemma storage_write_accepted (rt : Runtime) (k : string) (v : value) (w : World) :
  printable v = true ->
  storage_accepts rt (sessionStorage w) k (to_string v) = true ->
  storage_write rt k v w = Return (setItem k (to_string v) w).
Proof. intros Hp Ha. unfold storage_write, ToString. by rewrite Hp, Ha. Qed.

Lemma storage_write_unprintable (rt : Runtime) (k : string) (v : value) (w : World) :
  printable v = false ->
  storage_write rt k v w = Throw (JsError "TypeError" (convert_message rt)).
Proof. intros Hp. unfold storage_write, ToString. by rewrite Hp. Qed.

Lemma storage_write_refused (rt : Runtime) (k : string) (v : value) (w : World) :
  printable v = true ->
  storage_accepts rt (sessionStorage w) k (to_string v) = false ->
  storage_write rt k v w = Throw (JsError "QuotaExceededError" (quota_message rt)).
Proof. intros Hp Ha. unfold storage_write, ToString. by rewrite Hp, Ha. Qed.

(** What [signInAdmin] does once the exchange has succeeded with a body
    other than [null]: the outcome of the one write decides. *)
Lemma signInAdmin_after_exchange (rt : Runtime) (email password : string)
    (w : World) (response : value) :
  apiRequest rt (sessionStorage w) "/api/auth/login"
    (login_options rt email password) = Return response ->
  response <> VNull -> response <> VUndefined ->
  signInAdmin rt email password w =
    match storage_write rt "auth_token" (read_prop_opt response "access_token") w with
    | Throw e => signIn_catch e w
    | Return w' =>
        ({| user := read_prop_opt response "user";
            token := read_prop_opt response "access_token";
            error := None |}, w')
    end.
Proof.
  intros Hreq Hnull Hundef. unfold signInAdmin. rewrite Hreq.
  assert (Hread : read_prop (null_read_message rt) response "access_token" =
                  Return (read_prop_opt response "access_token")).
  { by destruct response. }
  by rewrite Hread.
Qed.

(** X10.  A sign-in whose exchange succeeds with a body other than [null]
    converts the body's [access_token] to a string and writes it under
    ['auth_token'].  When the conversion completes and the browser accepts
    the write, the sign-in reports no error and [ToString] of the field is
    what is stored, whatever the field is: with a non-empty string it is
    that string, and the next request carries it as ['Bearer <token>'];
    when the field is missing, the text ['undefined'] is stored and
    [hasValidToken] answers [true].  When the field cannot be converted, or
    the browser refuses the write, the exception is caught: the result
    carries its message with [null] user and token, and storage and store
    are what they were. *)
Theorem sign_in_success_stores_token (rt : Runtime) (email password : string)
    (w : World) (response : value) :
  apiRequest rt (sessionStorage w) "/api/auth/login"
    (login_options rt email password) = Return response ->
  response <> VNull -> response <> VUndefined ->
  (printable (read_prop_opt response "access_token") = true ->
   storage_accepts rt (sessionStorage w) "auth_token"
     (to_string (read_prop_opt response "access_token")) = true ->
   fst (signInAdmin rt email password w) =
     {| user := read_prop_opt response "user";
        token := read_prop_opt response "access_token";
        error := None |} /\
   sessionStorage (snd (signInAdmin rt email password w)) =
     <["auth_token"%string := to_string (read_prop_opt response "access_token")]>
       (sessionStorage w) /\
   store (snd (signInAdmin rt email password w)) = store w /\
   (forall t, read_prop_opt response "access_token" = VStr t -> t <> EmptyString ->
      getAuthHeader (sessionStorage (snd (signInAdmin rt email password w))) =
        {[ "Authorization"%string := ("Bearer " +:+ t)%string ]}) /\
   (read_prop_opt response "access_token" = VUndefined ->
    getItem "auth_token" (snd (signInAdmin rt email password w)) =
      Some "undefined"%string /\
    hasValidToken (snd (signInAdmin rt email password w)) = true)) /\
  (printable (read_prop_opt response "access_token") = false ->
   fst (signInAdmin rt email password w) =
     {| user := VNull; token := VNull; error := Some (convert_message rt) |} /\
   sessionStorage (snd (signInAdmin rt email password w)) = sessionStorage w /\
   store (snd (signInAdmin rt email password w)) = store w) /\
  (printable (read_prop_opt response "access_token") = true ->
   storage_accepts rt (sessionStorage w) "auth_token"
     (to_string (read_prop_opt response "access_token")) = false ->
   fst (signInAdmin rt email password w) =
     {| user := VNull; token := VNull; error := Some (quota_message rt) |} /\
   sessionStorage (snd (signInAdmin rt email password w)) = sessionStorage w /\
   store (snd (signInAdmin rt email password w)) = store w).
Proof.
  intros Hreq Hnull Hundef.
  rewrite (signInAdmin_after_exchange _ _ _ _ _ Hreq Hnull Hundef).
  split; [| split].
  - intros Hp Ha. rewrite (storage_write_accepted _ _ _ _ Hp Ha).
    cbn [fst snd setItem sessionStorage store].
    split; [done |]. split; [done |]. split; [done |]. split.
    + intros t Ht Hne. rewrite Ht. cbn [to_string].
      unfold getAuthHeader. rewrite lookup_insert_eq.
      apply truthy_nonempty in Hne. by rewrite Hne.
    + intros Hmissing. rewrite Hmissing.
      unfold hasValidToken, getItem, setItem. cbn [to_string sessionStorage].
      by rewrite lookup_insert_eq.
  - intros Hp. by rewrite (storage_write_unprintable _ _ _ _ Hp).
  - intros Hp Ha. by rewrite (storage_write_refused _ _ _ _ Hp Ha).
Qed.

Lemma sign_in_success_stores_token_witness :
  (getItem "auth_token"
     (snd (signInAdmin (Sample.answering 200 (inr (VObj [])))
             "owner@shop.test" "secret" Sample.fresh)) = Some "undefined"%string /\
   hasValidToken
     (snd (signInAdmin (Sample.answering 200 (inr (VObj [])))
             "owner@shop.test" "secret" Sample.fresh)) = true) /\
  fst (signInAdmin
         (Sample.answering 200
            (inr (VObj [("access_token"%string,
                         VObj [("toString"%string, VNum "1")])])))
         "owner@shop.test" "secret" Sample.fresh) =
    {| user := VNull; token := VNull;
       error := Some "Cannot convert object to primitive value"%string |}.
Proof.
  split.
  - apply (proj1 (sign_in_success_stores_token (Sample.answering 200 (inr (VObj [])))
             "owner@shop.test" "secret" Sample.fresh (VObj [])
             eq_refl ltac:(discriminate) ltac:(discriminate)));
      reflexivity.
  - apply (proj1 (proj2 (sign_in_success_stores_token
             (Sample.answering 200
                (inr (VObj [("access_token"%string,
                             VObj [("toString"%string, VNum "1")])])))
             "owner@shop.test" "secret" Sample.fresh
             (VObj [("access_token"%string, VObj [("toString"%string, VNum "1")])])
             eq_refl ltac:(discriminate) ltac:(discriminate))) eq_refl).
Defined.

(** X11.  [getCurrentUser] and [verifyToken] answer alike and differ in one
    thing only: the user [getCurrentUser] returns is the one [verifyToken]
    reports, but where a stored non-empty token fails verification
    [getCurrentUser] removes it and [verifyToken] leaves everything as it
    was. *)
Theorem getCurrentUser_vs_verifyToken (rt : Runtime) (w : World) :
  fst (getCurrentUser rt w) = verified_user (fst (verifyToken rt w)) /\
  snd (verifyToken rt w) = w /\
  snd (getCurrentUser rt w) =
    (if hasValidToken w && negb (valid (fst (verifyToken rt w)))
     then removeItem "auth_token" w else w) /\
  (valid (fst (verifyToken rt w)) = true ->
   hasValidToken w = true /\
   apiRequest rt (sessionStorage w) "/api/auth/me" no_options =
     Return (verified_user (fst (verifyToken rt w)))).
Proof.
  unfold getCurrentUser, verifyToken, hasValidToken.
  destruct (getItem "auth_token" w) as [t|]; [| done].
  destruct (JsString.truthy t); simpl; [| done].
  by destruct (apiRequest rt (sessionStorage w) "/api/auth/me" no_options).
Qed.

Lemma getCurrentUser_vs_verifyToken_witness :
  hasValidToken Sample.signed_in = true /\
  apiRequest
    (Sample.answering 200 (inr (VObj [("isAdmin"%string, VBool true)])))
    (sessionStorage Sample.signed_in) "/api/auth/me" no_options =
    Return (VObj [("isAdmin"%string, VBool true)]).
Proof.
  exact (proj2 (proj2 (proj2 (getCurrentUser_vs_verifyToken
           (Sample.answering 200 (inr (VObj [("isAdmin"%string, VBool true)])))
           Sample.signed_in))) eq_refl).
Defined.

Lemma set_saved_copy (rt : Runtime) (f : AuthState -> AuthState) (w : World) :
  saved_copy_current rt (set rt f w).
Proof. unfold saved_copy_current, set. simpl. apply lookup_insert_eq. Qed.

Lemma set_auth_token (rt : Runtime) (f : AuthState -> AuthState) (w : World) :
  sessionStorage (set rt f w) !! "auth_token"%string =
    sessionStorage w !! "auth_token"%string.
Proof. unfold set. simpl. by rewrite lookup_insert_ne. Qed.

Lemma setToken_in_step (rt : Runtime) (t : value) (w : World) :
  token_in_step (setToken rt t w).
Proof.
  unfold token_in_step, setToken. rewrite set_auth_token.
  unfold set. simpl. destruct (truthy t); simpl.
  - apply lookup_insert_eq.
  - apply lookup_delete_eq.
Qed.



End SessionExtras.

Section StartupExtras.
Import Js Api AuthService Session AuthStore Invariants.

Lemma verifyToken_world (rt : Runtime) (w : World) : snd (verifyToken rt w) = w.
Proof.
  unfold verifyToken. destruct (getItem "auth_token" w) as [t|]; [| done].
  destruct (negb (JsString.truthy t)); [done |].
  by destruct (apiRequest rt (sessionStorage w) "/api/auth/me" no_options).
Qed.

(** What [initializeAuthListener] leaves in the store, case by case. *)
Lemma initializeAuthListener_store (rt : Runtime) (w : World) :
  store (initializeAuthListener rt w) =
  let st := store w in
  if truthy (user st) && truthy (token st) then
    {| user := user st; isAdmin := read_prop_opt (user st) "isAdmin";
       isLoading := false; token := token st |}
  else if hasValidToken w && valid (fst (verifyToken rt w)) &&
          truthy (verified_user (fst (verifyToken rt w))) then
    {| user := verified_user (fst (verifyToken rt w));
       isAdmin := read_prop_opt (verified_user (fst (verifyToken rt w))) "isAdmin";
       isLoading := false; token := token st |}
  else
    {| user := user st; isAdmin := isAdmin st; isLoading := false;
       token := token st |}.
Proof.
  unfold initializeAuthListener, hasValidToken. cbn zeta.
  destruct (truthy (user (store w)) && truthy (token (store w))); [done |].
  destruct (getItem "auth_token" w) as [t|] eqn:Ht; [| done].
  destruct (JsString.truthy t) eqn:Htt; [| done].
  pose proof (verifyToken_world rt w) as Hw.
  destruct (verifyToken rt w) as [r w']. simpl in Hw. subst w'. simpl.
  by destruct (valid r && truthy (verified_user r)).
Qed.





(** X15.  When the stored token is missing, empty or fails verification,
    [initializeAuthListener] leaves [user] and [isAdmin] as they were: a
    failed verification grants nothing, and it revokes nothing either, so a
    user saved without a token stays visible as an administrator. *)
Theorem startup_failed_verification (rt : Runtime) (w : World) :
  truthy (user (store w)) && truthy (token (store w)) = false ->
  hasValidToken w && valid (fst (verifyToken rt w)) = false ->
  user (store (initializeAuthListener rt w)) = user (store w) /\
  isAdmin (store (initializeAuthListener rt w)) = isAdmin (store w) /\
  admin_visible (store (initializeAuthListener rt w)) =
    truthy (user (store w)) && truthy (isAdmin (store w)).
Proof.
  intros Hsaved Hfail. rewrite initializeAuthListener_store. cbn zeta.
  rewrite Hsaved, Hfail. by simpl.
Qed.

Lemma startup_failed_verification_witness :
  admin_visible
    (store (initializeAuthListener
              (Sample.answering 401 (inr (VObj [("detail"%string, VStr "Token expired")])))
              {| sessionStorage := sessionStorage Sample.signed_in;
                 store := {| user := user (store Sample.signed_in);
                             isAdmin := VBool true; isLoading := true;
                             token := VNull |};
                 console := [] |})) = true.
Proof.
  exact (proj2 (proj2 (startup_failed_verification
           (Sample.answering 401 (inr (VObj [("detail"%string, VStr "Token expired")])))
           {| sessionStorage := sessionStorage Sample.signed_in;
              store := {| user := user (store Sample.signed_in);
                          isAdmin := VBool true; isLoading := true;
                          token := VNull |};
              console := [] |} eq_refl eq_refl))).
Defined.

End StartupExtras.

(** ** The admin pages *)

Section PageExtras.
Import Js Api AuthService Session AuthStore Invariants AdminPages.

Lemma signInAdmin_store (rt : Runtime) (email password : string) (w : World) :
  store (snd (signInAdmin rt email password w)) = store w.
Proof.
  unfold signInAdmin.
  destruct (apiRequest _ _ _ _) as [response | e]; [| by destruct e].
  destruct (read_prop _ _ _) as [t | e]; [| by destruct e].
  unfold storage_write.
  destruct (ToString _ _) as [text | e]; [| by destruct e].
  by destruct (storage_accepts _ _ _ _).
Qed.

Lemma throwing_set_ok (rt : Runtime) (f : AuthState -> AuthState) (w : World) :
  fst (Throwing.set rt f w) = None ->
  snd (Throwing.set rt f w) = set rt f w.
Proof. unfold Throwing.set. by destruct (storage_accepts _ _ _ _). Qed.

Lemma throwing_set_user (rt : Runtime) (f : AuthState -> AuthState) (w : World) :
  store (snd (Throwing.set rt f w)) = f (store w).
Proof. unfold Throwing.set. by destruct (storage_accepts _ _ _ _). Qed.

Lemma throwing_setToken_ok (rt : Runtime) (t : value) (w : World) :
  fst (Throwing.setToken rt t w) = None ->
  snd (Throwing.setToken rt t w) = setToken rt t w.
Proof.
  unfold Throwing.setToken, setToken, storage_write, ToString.
  destruct (truthy t).
  - destruct (printable t); [| done].
    destruct (storage_accepts rt (sessionStorage w) _ _); [| done].
    apply throwing_set_ok.
  - apply throwing_set_ok.
Qed.

Lemma throwing_setToken_user (rt : Runtime) (t : value) (w : World) :
  user (store (snd (Throwing.setToken rt t w))) = user (store w).
Proof.
  unfold Throwing.setToken, storage_write, ToString.
  destruct (truthy t).
  - destruct (printable t); [| done].
    destruct (storage_accepts rt (sessionStorage w) _ _); [| done].
    by rewrite throwing_set_user.
  - by rewrite throwing_set_user.
Qed.

Lemma store_login_ok (rt : Runtime) (u t : value) (w : World) :
  fst (store_login rt u t w) = None ->
  snd (store_login rt u t w) = setToken rt t (setUser rt u w).
Proof.
  unfold store_login.
  pose proof (throwing_set_ok rt
    (fun st => {| user := u;
                  isAdmin := or_else (read_prop_opt u "isAdmin") (VBool false);
                  isLoading := isLoading st; token := token st |}) w) as Hu.
  fold (Throwing.setUser rt u w) in Hu. fold (setUser rt u w) in Hu.
  destruct (Throwing.setUser rt u w) as [[e|] w1]; [done |].
  cbn [fst snd] in Hu. rewrite <- (Hu eq_refl).
  apply throwing_setToken_ok.
Qed.

Lemma store_login_user (rt : Runtime) (u t : value) (w : World) :
  user (store (snd (store_login rt u t w))) = u.
Proof.
  unfold store_login.
  pose proof (throwing_set_user rt
    (fun st => {| user := u;
                  isAdmin := or_else (read_prop_opt u "isAdmin") (VBool false);
                  isLoading := isLoading st; token := token st |}) w) as Hu.
  fold (Throwing.setUser rt u w) in Hu.
  destruct (Throwing.setUser rt u w) as [[e|] w1]; cbn [fst snd] in Hu |- *.
  - by rewrite Hu.
  - by rewrite throwing_setToken_user, Hu.
Qed.

Lemma store_login_accepted (rt : Runtime) (u t : value) (w : World) :
  (forall ss k text, storage_accepts rt ss k text = true) ->
  printable t = true ->
  fst (store_login rt u t w) = None.
Proof.
  intros Hall Hp.
  unfold store_login, Throwing.setUser, Throwing.setToken, Throwing.set,
    storage_write, ToString.
  rewrite Hall, Hp. destruct (truthy t); by rewrite ?Hall.
Qed.

(** X16.  [handleSubmit] of the sign-in form reaches the store on one path
    only: both fields filled in, no error reported, and a truthy user and
    token returned.  There it runs [setUser] and [setToken], and the form
    ends with [isSubmitting] off and the store holding the returned user.
    When neither action throws, the store holds the returned token, the
    token in [sessionStorage] is the store's, the saved copy is current, and
    the form navigates to ['/admin'] after greeting; that is the case
    whenever the browser accepts every write and the token can be converted
    to a string.  When an action throws, [handleSubmit] shows
    ['Login failed. Please try again.'] and makes no navigation of its own.
    On every other path the store and the navigation history are what they
    were. *)
Theorem sign_in_form_paths (rt : Runtime) (email password : string) (p : Page) :
  let r := fst (signInAdmin rt email password (world p)) in
  let w := snd (signInAdmin rt email password (world p)) in
  let p' := handleSubmit rt email password p in
  let reached :=
    JsString.truthy email && JsString.truthy password &&
    bool_decide (AuthService.error r = None) &&
    truthy (AuthService.user r) && truthy (AuthService.token r) in
  let thrown := fst (store_login rt (AuthService.user r) (AuthService.token r) w) in
  (reached = true ->
   world p' = snd (store_login rt (AuthService.user r) (AuthService.token r) w) /\
   isSubmitting p' = false /\
   user (store (world p')) = AuthService.user r /\
   (thrown = None ->
    token (store (world p')) = AuthService.token r /\
    token_in_step (world p') /\
    saved_copy_current rt (world p') /\
    toasts p' = toasts p ++ [ToastSuccess "Welcome back!"] /\
    navigations p' = navigations p ++ ["/admin"%string]) /\
   (thrown <> None ->
    toasts p' = toasts p ++ [ToastError "Login failed. Please try again."] /\
    navigations p' = navigations p) /\
   ((forall ss k text, storage_accepts rt ss k text = true) ->
    printable (AuthService.token r) = true -> thrown = None)) /\
  (reached = false ->
   store (world p') = store (world p) /\
   navigations p' = navigations p).
Proof.
  cbn zeta. unfold handleSubmit.
  destruct (JsString.truthy email); [| by split].
  destruct (JsString.truthy password); [| by split]. cbn [negb orb andb].
  change (world (setIsSubmitting true p)) with (world p).
  pose proof (signInAdmin_store rt email password (world p)) as Hst.
  destruct (signInAdmin rt email password (world p)) as [r w].
  cbn [fst snd] in Hst |- *.
  destruct (AuthService.error r) as [message|] eqn:He.
  { split; [done |]. intros _. cbn [world in_world].
    by destruct (JsString.truthy message). }
  rewrite bool_decide_eq_true_2 by done. cbn [andb].
  destruct (truthy (AuthService.user r) && truthy (AuthService.token r)) eqn:Hut;
    [| by split].
  split; [intros _ | done].
  cbn [world in_world].
  pose proof (store_login_ok rt (AuthService.user r) (AuthService.token r) w) as Hok.
  pose proof (store_login_user rt (AuthService.user r) (AuthService.token r) w) as Huser.
  pose proof (store_login_accepted rt (AuthService.user r) (AuthService.token r) w)
    as Hall.
  destruct (store_login rt (AuthService.user r) (AuthService.token r) w)
    as [[e|] w'];
    cbn [fst snd] in Hok, Huser, Hall |- *;
    cbn [world in_world show navigate setIsSubmitting submit_catch toasts
         navigations isSubmitting].
  - do 3 (split; [done |]). split; [done |]. split; [done | exact Hall].
  - do 3 (split; [done |]). split; [| split; [done | exact Hall]].
    intros _. rewrite (Hok eq_refl).
    split; [unfold setToken; by destruct (truthy (AuthService.token r)) |].
    split; [apply setToken_in_step |].
    split; [apply set_saved_copy | done].
Qed.

Lemma sign_in_form_paths_witness :
  navigations
    (handleSubmit
       (Sample.answering 200
          (inr (VObj [("access_token"%string, VStr "tok-456");
                      ("user"%string, VObj [("isAdmin"%string, VBool true)])])))
       "owner@shop.test" "secret"
       {| world := Sample.fresh; toasts := []; navigations := [];
          isSubmitting := false |}) = ["/admin"%string].
Proof.
  pose proof (proj1 (sign_in_form_paths
    (Sample.answering 200
       (inr (VObj [("access_token"%string, VStr "tok-456");
                   ("user"%string, VObj [("isAdmin"%string, VBool true)])])))
    "owner@shop.test" "secret"
    {| world := Sample.fresh; toasts := []; navigations := [];
       isSubmitting := false |}) eq_refl) as (_ & _ & _ & Hdone & _).
  exact (proj2 (proj2 (proj2 (proj2 (Hdone eq_refl))))).
Defined.

(** X17.  The sign-in form can end without telling the user anything.
    With both fields filled in, when the server answers with a success whose
    body lacks a truthy [user] or [access_token], and the write of
    [ToString] of the [access_token] field goes through (the field can be
    converted and the browser accepts the write), [handleSubmit] shows no
    notice, does not navigate and leaves the store alone; what it has done
    is write that text into [sessionStorage]. *)
Theorem sign_in_form_silent (rt : Runtime) (email password : string) (p : Page)
    (response : value) :
  email <> EmptyString -> password <> EmptyString ->
  apiRequest rt (sessionStorage (world p)) "/api/auth/login"
    (login_options rt email password) = Return response ->
  response <> VNull -> response <> VUndefined ->
  truthy (read_prop_opt response "user") &&
    truthy (read_prop_opt response "access_token") = false ->
  printable (read_prop_opt response "access_token") = true ->
  storage_accepts rt (sessionStorage (world p)) "auth_token"
    (to_string (read_prop_opt response "access_token")) = true ->
  toasts (handleSubmit rt email password p) = toasts p /\
  navigations (handleSubmit rt email password p) = navigations p /\
  store (world (handleSubmit rt email password p)) = store (world p) /\
  getItem "auth_token" (world (handleSubmit rt email password p)) =
    Some (to_string (read_prop_opt response "access_token")).
Proof.
  intros He Hp Hreq Hnull Hundef Hfalsy Hprint Haccept.
  apply truthy_nonempty in He, Hp.
  unfold handleSubmit. rewrite He, Hp. cbn [negb orb].
  change (world (setIsSubmitting true p)) with (world p).
  rewrite (signInAdmin_after_exchange _ _ _ _ _ Hreq Hnull Hundef).
  rewrite (storage_write_accepted _ _ _ _ Hprint Haccept).
  cbn [AuthService.error AuthService.user AuthService.token].
  rewrite Hfalsy.
  cbn [world in_world show navigate setIsSubmitting toasts navigations].
  repeat split. unfold getItem, setItem. simpl. apply lookup_insert_eq.
Qed.

Lemma sign_in_form_silent_witness :
  toasts (handleSubmit (Sample.answering 200 (inr (VObj [])))
            "owner@shop.test" "secret"
            {| world := Sample.fresh; toasts := []; navigations := [];
               isSubmitting := false |}) = [] /\
  getItem "auth_token"
    (world (handleSubmit (Sample.answering 200 (inr (VObj [])))
              "owner@shop.test" "secret"
              {| world := Sample.fresh; toasts := []; navigations := [];
                 isSubmitting := false |})) = Some "undefined"%string.
Proof.
  pose proof (sign_in_form_silent (Sample.answering 200 (inr (VObj [])))
                "owner@shop.test" "secret"
                {| world := Sample.fresh; toasts := []; navigations := [];
                   isSubmitting := false |} (VObj [])) as H.
  destruct H as (Ht & _ & _ & Hk);
    [discriminate | discriminate | reflexivity | discriminate | discriminate
    | reflexivity | reflexivity | reflexivity |].
  split; [exact Ht | exact Hk].
Defined.


(** X19.  The two route guards agree with each other and with what is
    rendered: the layout shows its content exactly when the sign-in page
    redirects to ['/admin'], it redirects to ['/admin/login'] exactly when
    it renders nothing, and while the session is loading neither guard
    redirects and only the spinner is shown. *)
Theorem route_guards_agree (st : AuthState) :
  (layout_view st = Content <-> login_redirects st = true) /\
  (layout_view st = Content <-> admin_visible st = true) /\
  (layout_view st = Blank <-> layout_redirects st = true) /\
  (layout_redirects st && login_redirects st = false) /\
  (isLoading st = true ->
   layout_view st = Spinner /\ layout_redirects st = false /\
   login_redirects st = false).
Proof.
  unfold layout_view, login_redirects, layout_redirects, admin_visible.
  destruct (isLoading st), (truthy (user st)), (truthy (isAdmin st)); simpl;
    repeat split; done.
Qed.

End PageExtras.

(** ** Settings, products, uploads *)

Section ServiceExtras.
Import Js Api Session ApiForm Services.

(** X20.  A failed settings fetch never closes a page.  When the request for
    ['/api/settings'] fails, [initializeSettings] installs the service's
    fallback: both page flags are [true], loading has ended, and the
    [driveFolderId] the store started with is gone, the fallback having
    none. *)
Theorem settings_fail_open (rt : Runtime) (a : SettingsStore.App) (e : exn) :
  apiRequest rt (sessionStorage (SettingsStore.world a)) "/api/settings" no_options =
    Throw e ->
  let s := SettingsStore.settings_store (SettingsStore.initializeSettings rt a) in
  SettingsStore.page_enabled "homepageEnabled" s = true /\
  SettingsStore.page_enabled "productsPageEnabled" s = true /\
  SettingsStore.isLoading s = false /\
  read_prop_opt (SettingsStore.settings s) "driveFolderId" = VUndefined /\
  sessionStorage (SettingsStore.world (SettingsStore.initializeSettings rt a)) =
    sessionStorage (SettingsStore.world a).
Proof.
  intros Hfail. cbn zeta.
  unfold SettingsStore.initializeSettings, SettingsStore.fetchSettings,
    getSiteSettings, request_or.
  rewrite Hfail. by repeat split.
Qed.

Lemma settings_fail_open_witness :
  SettingsStore.page_enabled "homepageEnabled"
    (SettingsStore.settings_store
       (SettingsStore.initializeSettings
          (Sample.answering 503 (inl (JsError "SyntaxError" "Unexpected token <")))
          {| SettingsStore.world := Sample.fresh;
             SettingsStore.settings_store := SettingsStore.initial_state |})) = true.
Proof.
  exact (proj1 (settings_fail_open
           (Sample.answering 503 (inl (JsError "SyntaxError" "Unexpected token <")))
           {| SettingsStore.world := Sample.fresh;
              SettingsStore.settings_store := SettingsStore.initial_state |}
           (JsError "Error" "Request failed") eq_refl)).
Defined.


Lemma lookup_prop_app_miss (k : string) (l1 l2 : list (string * value)) :
  (forall k' v, In (k', v) l1 -> k' <> k) ->
  lookup_prop k (l1 ++ l2) = lookup_prop k l2.
Proof.
  induction l1 as [|[k' v] l1 IH]; intros Hmiss; [done |]. simpl.
  destruct (String.eqb_spec k k') as [-> | Hne].
  - exfalso. by apply (Hmiss k' v); [left |].
  - apply IH. intros k'' v' Hin. apply (Hmiss k'' v'). by right.
Qed.

(** X22.  The body [updateProduct] sends holds only fields of the form data
    that are defined, each with the form's value, plus [image_data], which
    is present exactly when a non-empty image reference was passed.  So an
    edit that passes no image never overwrites the stored one. *)
Theorem update_body_fields (data : value) (imageData : option string) :
  (forall k v,
     In (k, v) (updateData data imageData) ->
     (In k product_fields /\ v = read_prop_opt data k /\ v <> VUndefined) \/
     (k = "image_data"%string /\
      exists s, imageData = Some s /\ s <> EmptyString /\ v = VStr s)) /\
  (lookup_prop "image_data" (updateData data imageData) =
     match imageData with
     | Some s => if JsString.truthy s then VStr s else VUndefined
     | None => VUndefined
     end).
Proof.
  unfold updateData. split.
  - intros k v Hin. apply in_app_or in Hin as [Hin | Hin].
    + left. apply list_elem_of_In, list_elem_of_omap in Hin as (k' & Hk' & Hv).
      apply list_elem_of_In in Hk'.
      destruct (read_prop_opt data k') eqn:Hr; try discriminate Hv;
        injection Hv as <- <-; rewrite Hr; by repeat split.
    + right. destruct imageData as [s|]; [| done].
      destruct (JsString.truthy s) eqn:Hs; [| done].
      destruct Hin as [[= <- <-] | []]. split; [done |].
      exists s. repeat split. by apply truthy_nonempty.
  - rewrite lookup_prop_app_miss.
    + destruct imageData as [s|]; [| done]. by destruct (JsString.truthy s).
    + intros k v (k' & Hk' & Hv)%list_elem_of_In%list_elem_of_omap.
      apply list_elem_of_In in Hk'.
      assert (k = k') as ->.
      { by destruct (read_prop_opt data k'); try discriminate Hv;
          injection Hv as <- <-. }
      unfold product_fields in Hk'. simpl in Hk'.
      intros ->. repeat destruct Hk' as [[=] | Hk']. done.
Qed.

Lemma update_body_fields_witness :
  (In "price"%string product_fields /\
   VNum "499" = read_prop_opt (VObj [("price"%string, VNum "499")]) "price" /\
   VNum "499" <> VUndefined) \/
  ("price"%string = "image_data"%string /\
   exists s, Some EmptyString = Some s /\ s <> EmptyString /\ VNum "499" = VStr s).
Proof.
  apply (proj1 (update_body_fields (VObj [("price"%string, VNum "499")])
                  (Some EmptyString))).
  left. reflexivity.
Defined.

(** X23.  [validateImage] accepts a file exactly when its type is one of
    the four image types and its size is at most 5 MiB (5242880 bytes),
    and it judges the type first.  [uploadImage] sends nothing for a file
    that fails: the answer is the validation message, whatever the server
    would say, and the session is untouched. *)
Theorem invalid_file_never_uploaded (rt : Runtime)
    (multipart : FormData -> string) (file : File) (folder : option string)
    (w : World) :
  (valid (validateImage file) = true <->
   In (file_type file) allowedTypes /\ (file_size file <= 5242880)%N) /\
  (~ In (file_type file) allowedTypes ->
   validation_error (validateImage file) =
     Some "Invalid file type. Only JPEG, PNG, GIF, and WebP are allowed."%string) /\
  (valid (validateImage file) = false ->
   validation_error (validateImage file) <> None /\
   uploadImage rt multipart file folder w =
     ({| url := VNull; upload_error := validation_error (validateImage file) |}, w)).
Proof.
  assert (Hallowed : existsb (String.eqb (file_type file)) allowedTypes = true <->
                     In (file_type file) allowedTypes).
  { rewrite existsb_exists. split.
    - by intros (x & Hx & ->%String.eqb_eq).
    - intros Hin. exists (file_type file). by rewrite String.eqb_refl. }
  unfold uploadImage, validateImage, maxSize.
  destruct (existsb _ allowedTypes) eqn:Ht; cbn [negb].
  - destruct (N.ltb_spec (5 * 1024 * 1024) (file_size file)); simpl.
    + split; [split; [done | intros [_ ?]; lia] |].
      split; [intros Hn; by destruct Hn; apply Hallowed | done].
    + split; [split; [intros _; split; [by apply Hallowed | lia] | done] |].
      split; [intros Hn; by destruct Hn; apply Hallowed | done].
  - simpl. split; [split; [done | intros [Hin _]; apply Hallowed in Hin; congruence] |].
    done.
Qed.

Lemma invalid_file_never_uploaded_witness :
  uploadImage (Sample.answering 200 (inr (VObj [("url"%string, VStr "/u/1.png")])))
    (fun _ => "form"%string)
    {| file_type := "image/png"; file_size := 6000000 |} None Sample.signed_in =
  ({| url := VNull;
      upload_error := Some "File size too large. Maximum size is 5MB."%string |},
   Sample.signed_in).
Proof.
  exact (proj2 (proj2 (proj2 (invalid_file_never_uploaded
           (Sample.answering 200 (inr (VObj [("url"%string, VStr "/u/1.png")])))
           (fun _ => "form"%string)
           {| file_type := "image/png"; file_size := 6000000 |} None
           Sample.signed_in)) eq_refl)).
Defined.

End ServiceExtras.

(** ** [slugify] *)

Section SlugFacts.
Import Slug.

Ltac to_arith :=
  unfold is_separator, is_word, is_space, is_alnum, is_dash, between in *;
  cbn [existsb] in *;
  repeat first
    [ rewrite andb_true_iff in *
    | rewrite orb_true_iff in *
    | rewrite andb_false_iff in *
    | rewrite orb_false_iff in *
    | rewrite N.leb_le in *
    | rewrite N.leb_gt in *
    | rewrite N.eqb_eq in *
    | rewrite N.eqb_neq in * ].

Lemma alnum_not_separator (u : N) : is_alnum u = true -> is_separator u = false.
Proof. intros H. to_arith. lia. Qed.

Lemma alnum_not_space (u : N) : is_alnum u = true -> is_space u = false.
Proof. intros H. to_arith. lia. Qed.

Lemma alnum_not_dash (u : N) : is_alnum u = true -> is_dash u = false.
Proof. intros H. to_arith. lia. Qed.

Lemma dash_is_separator (u : N) : is_dash u = true -> is_separator u = true.
Proof. intros H. unfold is_separator. by rewrite H, orb_true_r. Qed.

Lemma kept_not_separator (u : N) :
  is_word u || is_space u || is_dash u = true -> is_separator u = false ->
  is_alnum u = true.
Proof. intros H1 H2. to_arith. lia. Qed.

Lemma kept_not_alnum (u : N) :
  is_word u || is_space u || is_dash u = true -> is_alnum u = false ->
  is_separator u = true.
Proof. intros H1 H2. to_arith. lia. Qed.

Lemma drop_while_split (P : N -> bool) (l : text) :
  exists pre, l = pre ++ drop_while P l /\ forallb P pre = true.
Proof.
  induction l as [|u l (pre & Hl & Hpre)]; [by exists [] |]. simpl.
  destruct (P u) eqn:Hu; [| by exists []].
  exists (u :: pre). simpl. by rewrite Hu, Hpre, <- Hl.
Qed.

Lemma drop_while_head (P : N -> bool) (l : text) :
  match drop_while P l with [] => True | u :: _ => P u = false end.
Proof.
  induction l as [|u l IH]; [done |]. simpl. by destruct (P u) eqn:Hu.
Qed.

Lemma drop_while_id (P : N -> bool) (l : text) :
  match l with [] => True | u :: _ => P u = false end -> drop_while P l = l.
Proof. destruct l as [|u l]; [done |]. simpl. by intros ->. Qed.

Lemma drop_while_all (P : N -> bool) (l : text) :
  forallb P l = true -> drop_while P l = [].
Proof.
  induction l as [|u l IH]; [done |]. simpl.
  intros [-> H]%andb_true_iff. by apply IH.
Qed.

Lemma drop_while_keeps (P : N -> bool) (l : text) (u : N) :
  In u l -> P u = false -> In u (drop_while P l).
Proof.
  induction l as [|v l IH]; [done |]. simpl. intros [-> | Hin] Hu.
  - rewrite Hu. by left.
  - destruct (P v); [by apply IH | by right].
Qed.

Lemma drop_while_incl (P : N -> bool) (l : text) (u : N) :
  In u (drop_while P l) -> In u l.
Proof.
  destruct (drop_while_split P l) as (pre & Hl & _). intros H.
  rewrite Hl. apply in_or_app. by right.
Qed.

Lemma drop_while_end_split (P : N -> bool) (l : text) :
  exists suf, l = drop_while_end P l ++ suf /\ forallb P suf = true.
Proof.
  unfold drop_while_end.
  destruct (drop_while_split P (rev l)) as (pre & Hl & Hpre).
  exists (rev pre). split.
  - rewrite <- rev_app_distr, <- Hl. by rewrite rev_involutive.
  - rewrite forallb_forall in *. intros x Hx. apply Hpre. by apply in_rev.
Qed.

Lemma drop_while_end_keeps (P : N -> bool) (l : text) (u : N) :
  In u l -> P u = false -> In u (drop_while_end P l).
Proof.
  intros Hin Hu. unfold drop_while_end.
  apply in_rev. rewrite rev_involutive. apply drop_while_keeps; [| done].
  by apply in_rev in Hin.
Qed.

Lemma drop_while_end_incl (P : N -> bool) (l : text) (u : N) :
  In u (drop_while_end P l) -> In u l.
Proof.
  destruct (drop_while_end_split P l) as (suf & Hl & _). intros H.
  rewrite Hl. apply in_or_app. by left.
Qed.

Lemma drop_while_end_id (P : N -> bool) (l : text) :
  match rev l with [] => True | u :: _ => P u = false end ->
  drop_while_end P l = l.
Proof.
  intros H. unfold drop_while_end. rewrite drop_while_id by done.
  apply rev_involutive.
Qed.

Lemma drop_while_end_last (P : N -> bool) (l : text) :
  match rev (drop_while_end P l) with [] => True | u :: _ => P u = false end.
Proof.
  unfold drop_while_end. rewrite rev_involutive. apply drop_while_head.
Qed.

(** Trimming one end does not disturb a clean other end. *)
Lemma drop_while_end_head (P : N -> bool) (l : text) :
  match l with [] => True | u :: _ => P u = false end ->
  match drop_while_end P l with [] => True | u :: _ => P u = false end.
Proof.
  destruct (drop_while_end_split P l) as (suf & Hl & _).
  destruct (drop_while_end P l) as [|v k]; [done |].
  rewrite Hl. by simpl.
Qed.

Lemma no_double_dash_app (a b : text) :
  no_double_dash (a ++ b) = true ->
  no_double_dash a = true /\ no_double_dash b = true.
Proof.
  induction a as [|u a IH]; [by destruct b |].
  destruct a as [|v a].
  - simpl. destruct b as [|w b]; [done |].
    by intros [_ H]%andb_true_iff.
  - change (no_double_dash ((u :: v :: a) ++ b))
      with (negb (is_dash u && is_dash v) && no_double_dash ((v :: a) ++ b)).
    intros [Huv H]%andb_true_iff. destruct (IH H) as [Ha Hb].
    split; [| done]. simpl in *. by rewrite Huv, Ha.
Qed.

End SlugFacts.

Section SlugExtras.
Import Slug.

Lemma collapse_from_chars (b : bool) (l : text) :
  forallb (fun u => is_word u || is_space u || is_dash u) l = true ->
  forallb (fun u => is_alnum u || is_dash u) (collapse_from b l) = true.
Proof.
  revert b; induction l as [|u l IH]; intros b H; [done |].
  simpl in H. apply andb_true_iff in H as [Hu Hl]. simpl.
  destruct (is_separator u) eqn:Hs.
  - destruct b; simpl; by rewrite ?IH.
  - simpl. by rewrite (kept_not_separator u Hu Hs), IH.
Qed.

Lemma collapse_from_run_head (l : text) :
  match collapse_from true l with [] => True | u :: _ => is_dash u = false end.
Proof.
  induction l as [|u l IH]; [done |]. simpl.
  destruct (is_separator u) eqn:Hs; [done |].
  destruct (is_dash u) eqn:Hd; [| done].
  by rewrite (dash_is_separator u Hd) in Hs.
Qed.

Lemma collapse_from_no_double (b : bool) (l : text) :
  no_double_dash (collapse_from b l) = true.
Proof.
  revert b; induction l as [|u l IH]; intros b; [done |]. simpl.
  destruct (is_separator u) eqn:Hs.
  - destruct b; [apply IH |].
    pose proof (collapse_from_run_head l) as Hh. specialize (IH true).
    destruct (collapse_from true l) as [|v k]; [done |].
    change (negb (is_dash 45 && is_dash v) && no_double_dash (v :: k) = true).
    by rewrite Hh, IH, andb_false_r.
  - specialize (IH false).
    destruct (collapse_from false l) as [|v k]; [done |].
    assert (Hd : is_dash u = false).
    { destruct (is_dash u) eqn:Hd; [| done].
      by rewrite (dash_is_separator u Hd) in Hs. }
    change (negb (is_dash u && is_dash v) && no_double_dash (v :: k) = true).
    by rewrite Hd, IH.
Qed.

Lemma collapse_from_keeps (b : bool) (l : text) (u : N) :
  In u l -> is_separator u = false -> In u (collapse_from b l).
Proof.
  revert b; induction l as [|v l IH]; intros b Hin Hu; [done |]. simpl.
  destruct Hin as [-> | Hin].
  - rewrite Hu. by left.
  - destruct (is_separator v); [destruct b |]; try right; by apply IH.
Qed.

Lemma collapse_from_separators (b : bool) (l : text) :
  forallb is_separator l = true -> forallb is_dash (collapse_from b l) = true.
Proof.
  revert b; induction l as [|u l IH]; intros b H; [done |].
  simpl in H. apply andb_true_iff in H as [Hu Hl]. simpl. rewrite Hu.
  destruct b; simpl; by rewrite ?IH.
Qed.

Lemma collapse_from_id (b : bool) (l : text) :
  forallb (fun u => is_alnum u || is_dash u) l = true ->
  no_double_dash l = true ->
  (b = true -> match l with [] => True | u :: _ => is_dash u = false end) ->
  collapse_from b l = l.
Proof.
  revert b; induction l as [|u l IH]; intros b Hc Hn Hb; [done |].
  simpl in Hc. apply andb_true_iff in Hc as [Hu Hc]. simpl.
  assert (Hn' : no_double_dash l = true).
  { destruct l as [|v l]; [done |]. simpl in Hn.
    by apply andb_true_iff in Hn as [_ Hn]. }
  destruct (is_dash u) eqn:Hd.
  - rewrite (dash_is_separator u Hd).
    destruct b; [by specialize (Hb eq_refl) |].
    apply N.eqb_eq in Hd as Hu45. rewrite <- Hu45. f_equal.
    apply IH; [done | done |]. intros _.
    destruct l as [|v l]; [done |]. simpl in Hn. rewrite Hd in Hn.
    apply andb_true_iff in Hn as [Hv _]. by destruct (is_dash v).
  - rewrite orb_false_r in Hu. rewrite (alnum_not_separator u Hu). f_equal.
    by apply IH.
Qed.

Lemma remove_others_chars (l : text) :
  forallb (fun u => is_word u || is_space u || is_dash u) (remove_others l) = true.
Proof.
  apply forallb_forall. intros u Hu. by apply filter_In in Hu as [_ Hu].
Qed.

Lemma forallb_sub (P : N -> bool) (l k : text) :
  (forall u, In u k -> In u l) -> forallb P l = true -> forallb P k = true.
Proof. rewrite !forallb_forall. auto. Qed.

(** The shape of every slug. *)
Lemma slugify_shaped (toLowerCase : text -> text) (s : text) :
  slug_shaped (slugify toLowerCase s) = true.
Proof.
  unfold slugify, slug_shaped, strip_dashes.
  set (c := collapse (remove_others (trim (toLowerCase s)))).
  assert (Hc : forallb (fun u => is_alnum u || is_dash u) c = true).
  { apply collapse_from_chars, remove_others_chars. }
  assert (Hn : no_double_dash c = true) by apply collapse_from_no_double.
  repeat (apply andb_true_iff; split).
  - apply (forallb_sub _ c); [| done].
    intros u Hu. by apply drop_while_end_incl, drop_while_incl in Hu.
  - pose proof (drop_while_end_head is_dash _ (drop_while_head is_dash c)) as H.
    destruct (drop_while_end is_dash (drop_while is_dash c)); [done |].
    by rewrite H.
  - pose proof (drop_while_end_last is_dash (drop_while is_dash c)) as H.
    destruct (rev (drop_while_end is_dash (drop_while is_dash c))); [done |].
    by rewrite H.
  - destruct (drop_while_split is_dash c) as (pre & Hpre & _).
    destruct (drop_while_end_split is_dash (drop_while is_dash c)) as (suf & Hsuf & _).
    rewrite Hpre in Hn. apply no_double_dash_app in Hn as [_ Hn].
    rewrite Hsuf in Hn. by apply no_double_dash_app in Hn as [Hn _].
Qed.

(** X25.  The slug is empty exactly when the lower-cased text has no ASCII
    letter or digit.  A category name made of punctuation or of non-ASCII
    letters only is not blank, yet its slug is the empty string. *)
Theorem slug_empty_exactly (toLowerCase : text -> text) (s : text) :
  slugify toLowerCase s = [] <-> existsb is_alnum (toLowerCase s) = false.
Proof.
  unfold slugify, strip_dashes, collapse, trim. split.
  - intros Hempty. apply not_true_is_false.
    intros (u & Hin & Hu)%existsb_exists.
    assert (In u []) as []. rewrite <- Hempty.
    apply drop_while_end_keeps; [| by apply alnum_not_dash].
    apply drop_while_keeps; [| by apply alnum_not_dash].
    apply collapse_from_keeps; [| by apply alnum_not_separator].
    apply filter_In. split; [| unfold is_word; by rewrite Hu].
    apply drop_while_end_keeps; [| by apply alnum_not_space].
    by apply drop_while_keeps; [| apply alnum_not_space].
  - intros Hnone.
    set (t := drop_while_end is_space (drop_while is_space (toLowerCase s))).
    assert (Hsep : forallb is_separator (remove_others t) = true).
    { apply forallb_forall. intros u Hu.
      apply filter_In in Hu as [Hin Hkept].
      apply kept_not_alnum; [done |].
      apply drop_while_end_incl, drop_while_incl in Hin.
      destruct (is_alnum u) eqn:Ha; [| done].
      assert (existsb is_alnum (toLowerCase s) = true); [| congruence].
      apply existsb_exists. by exists u. }
    apply (collapse_from_separators false) in Hsep.
    rewrite (drop_while_all _ _ Hsep). done.
Qed.

Lemma slugify_fixed (toLowerCase : text -> text) (s : text) :
  slug_shaped s = true -> toLowerCase s = s -> slugify toLowerCase s = s.
Proof.
  unfold slug_shaped. intros H Hlow.
  apply andb_true_iff in H as [H Hn].
  apply andb_true_iff in H as [H Hlast].
  apply andb_true_iff in H as [Hc Hhead].
  assert (Hnd : forall u, In u s -> is_dash u = false -> is_space u = false).
  { intros u Hu Hd. rewrite forallb_forall in Hc. specialize (Hc u Hu).
    rewrite Hd, orb_false_r in Hc. by apply alnum_not_space. }
  unfold slugify, trim, strip_dashes, collapse. rewrite Hlow.
  assert (Htrim : drop_while_end is_space (drop_while is_space s) = s).
  { rewrite (drop_while_id is_space s).
    - apply drop_while_end_id. destruct (rev s) as [|u k] eqn:Hr; [done |].
      apply Hnd; [| by apply negb_true_iff].
      apply in_rev. rewrite Hr. by left.
    - destruct s as [|u k]; [done |].
      apply Hnd; [by left | by apply negb_true_iff]. }
  rewrite Htrim.
  assert (Hkeep : remove_others s = s).
  { unfold remove_others. apply forallb_filter_id.
    apply forallb_forall. intros u Hu. rewrite forallb_forall in Hc.
    specialize (Hc u Hu). unfold is_word.
    apply orb_true_iff in Hc as [-> | ->]; by rewrite ?orb_true_r. }
  rewrite Hkeep, (collapse_from_id false s) by done.
  rewrite (drop_while_id is_dash s).
  - apply drop_while_end_id. destruct (rev s); [done | by apply negb_true_iff].
  - destruct s; [done | by apply negb_true_iff].
Qed.

End SlugExtras.

Section SlugClaims.
Import Slug.

(** X24.  Whatever [toLowerCase] does, a slug consists of ASCII letters,
    digits and hyphens only, begins and ends with a letter or digit (or is
    empty), and has no two hyphens in a row. *)
Theorem slug_always_shaped (toLowerCase : text -> text) (s : text) :
  slug_shaped (slugify toLowerCase s) = true /\
  (forall u, In u (slugify toLowerCase s) -> is_alnum u = true \/ u = 45%N).
Proof.
  pose proof (slugify_shaped toLowerCase s) as H. split; [done |].
  unfold slug_shaped in H.
  apply andb_true_iff in H as [H _]. apply andb_true_iff in H as [H _].
  apply andb_true_iff in H as [H _]. rewrite forallb_forall in H.
  intros u Hu. specialize (H u Hu).
  apply orb_true_iff in H as [H | H]; [by left | right].
  by apply N.eqb_eq in H.
Qed.

(** X26.  A text that already has the shape of a slug and that
    [toLowerCase] leaves alone is its own slug; so [slugify] applied to a
    slug returns it, whenever lower-casing does not change that slug. *)
Theorem slug_of_slug (toLowerCase : text -> text) (s : text) :
  (slug_shaped s = true -> toLowerCase s = s -> slugify toLowerCase s = s) /\
  (toLowerCase (slugify toLowerCase s) = slugify toLowerCase s ->
   slugify toLowerCase (slugify toLowerCase s) = slugify toLowerCase s).
Proof.
  split; [apply slugify_fixed |].
  intros Hlow. apply slugify_fixed; [apply slugify_shaped | done].
Qed.

Lemma slug_of_slug_witness :
  slugify ascii_lower [115; 117; 109; 109; 101; 114; 45; 115; 97; 108; 101]%N =
    [115; 117; 109; 109; 101; 114; 45; 115; 97; 108; 101]%N /\
  slugify ascii_lower
    (slugify ascii_lower [32; 83; 117; 109; 109; 101; 114; 32; 95; 32; 83; 97; 108; 101; 33]%N) =
    slugify ascii_lower [32; 83; 117; 109; 109; 101; 114; 32; 95; 32; 83; 97; 108; 101; 33]%N.
Proof.
  split.
  - apply (proj1 (slug_of_slug ascii_lower
                    [115; 117; 109; 109; 101; 114; 45; 115; 97; 108; 101]%N));
      reflexivity.
  - apply (proj2 (slug_of_slug ascii_lower
                    [32; 83; 117; 109; 109; 101; 114; 32; 95; 32; 83; 97; 108; 101; 33]%N)).
    reflexivity.
Defined.

End SlugClaims.

Section UploadExtras.
Import Js Api Session ApiForm Services.

(** X27.  A form upload carries no [Content-Type] of its own, leaving it to
    the browser: the only header [apiFormRequest] sets is [Authorization],
    present exactly when a non-empty token is stored.  When the upload is
    answered with an error status and a body that is not JSON, the message
    is ['Upload failed']. *)
Theorem form_request_headers (rt : Runtime) (multipart : FormData -> string)
    (ss : Storage) (endpoint : string) (formData : FormData) :
  req_headers (build_form_request rt multipart ss endpoint formData)
    !! "Content-Type"%string = None /\
  (forall k,
     k <> "Authorization"%string ->
     req_headers (build_form_request rt multipart ss endpoint formData) !! k = None) /\
  req_headers (build_form_request rt multipart ss endpoint formData)
    !! "Authorization"%string =
    match ss !! "auth_token"%string with
    | Some t => if JsString.truthy t then Some ("Bearer " +:+ t)%string else None
    | None => None
    end /\
  (forall r e,
     fetch rt (build_form_request rt multipart ss endpoint formData) = inr r ->
     ok r = false -> json r = inl e ->
     apiFormRequest rt multipart ss endpoint formData =
       Throw (JsError "Error" "Upload failed")).
Proof.
  unfold build_form_request. simpl.
  assert (Hother : forall k, k <> "Authorization"%string -> getAuthHeader ss !! k = None).
  { intros k Hk. rewrite getAuthHeader_lookup.
    destruct (ss !! "auth_token"%string) as [t|]; [| done].
    rewrite bool_decide_eq_false_2 by done. by rewrite andb_false_r. }
  split; [by apply Hother |]. split; [done |]. split.
  - rewrite getAuthHeader_lookup.
    destruct (ss !! "auth_token"%string) as [t|]; [| done].
    rewrite bool_decide_eq_true_2 by done. by rewrite andb_true_r.
  - intros r e Hfetch Hok Hjson. unfold apiFormRequest, build_form_request.
    by rewrite Hfetch, Hok, Hjson.
Qed.

Lemma form_request_headers_witness :
  apiFormRequest (Sample.answering 502 (inl (JsError "SyntaxError" "Unexpected token <")))
    (fun _ => "form"%string) (sessionStorage Sample.signed_in)
    "/api/upload/image?folder=products"
    [("file"%string, {| file_type := "image/png"; file_size := 1000 |})] =
  Throw (JsError "Error" "Upload failed").
Proof.
  exact (proj2 (proj2 (proj2 (form_request_headers
           (Sample.answering 502 (inl (JsError "SyntaxError" "Unexpected token <")))
           (fun _ => "form"%string) (sessionStorage Sample.signed_in)
           "/api/upload/image?folder=products"
           [("file"%string, {| file_type := "image/png"; file_size := 1000 |})])))
         _ _ eq_refl eq_refl eq_refl).
Defined.

End UploadExtras.
